(** * Omnigen: the live audio conversation of [AudioLab.tsx]

    A shallow embedding of the live-session code of
    [src/components/AudioLab.tsx] (the handlers [stopLiveSession],
    [startLiveSession], [onopen], [onmessage], [onclose], [onerror]) and of
    the PCM helpers it imports from [utils/audio].

    Numbers: JavaScript numbers that carry time (the output clock,
    [nextStartTimeRef], buffer durations) and audio samples are exact
    rationals [Q]; 16-bit samples are [Z]; wire bytes are [byte]. *)

From Stdlib Require Import ZArith QArith Qround Qminmax Qabs.
From Stdlib Require Import String List Bool Lia Lqa.
From coqutil Require Import Byte Word.LittleEndianList.
Import ListNotations.

(* ===================================================================== *)
(** ** PCM frames: [createPcmBlob] and [decodeAudioData]                  *)
(* ===================================================================== *)

Module Pcm.

Local Open Scope Q_scope.

(** The declared encoding tag of a wire payload. *)
Inductive Encoding := PcmS16LE.

(** WireAudioPayload: the encoded bytes and their tag. *)
Record WireAudioPayload := {
  data : list byte;
  mimeType : Encoding
}.

(** A decoded buffer: interleaved samples, with the rate and channel count
    the caller asked for. *)
Record AudioBuffer := {
  sampleRate : positive;
  numberOfChannels : positive;
  samples : list Q
}.

(** Frames per channel and the playing time in seconds. *)
Definition frameCount (b : AudioBuffer) : Z :=
  (Z.of_nat (length (samples b)) / Z.pos (numberOfChannels b))%Z.

Definition duration (b : AudioBuffer) : Q :=
  frameCount b # sampleRate b.

(** Modelled from the spec: the sample quantiser of [createPcmBlob] in
    [utils/audio], which is not among the sources. The sample is clamped to
    [-1, 1], multiplied by 32767, rounded to the nearest integer (a tie goes
    up, as [Math.round] does) and clamped to the signed 16-bit range. *)
Definition clampUnit (x : Q) : Q := Qmax (-1) (Qmin 1 x).

Definition roundNearest (q : Q) : Z := Qfloor (q + (1 # 2)).

Definition clampInt16 (z : Z) : Z := Z.max (-32768) (Z.min 32767 z).

Definition encodeSample (x : Q) : Z :=
  clampInt16 (roundNearest (32767 * clampUnit x)).

(** Modelled from the spec: [createPcmBlob] of [utils/audio], which is not
    among the sources. Every quantised sample becomes two bytes, the low one
    first (two's complement), tagged as raw little-endian 16-bit PCM. *)
Definition createPcmBlob (inputData : list Q) : WireAudioPayload :=
  {| data := flat_map (fun x => le_split 2 (encodeSample x)) inputData;
     mimeType := PcmS16LE |}.

(** The signed reading of an unsigned 16-bit value. *)
Definition signed16 (u : Z) : Z :=
  if (u <? 32768)%Z then u else (u - 65536)%Z.

(** Modelled from the spec: the byte reader of [decodeAudioData] in
    [utils/audio], which is not among the sources. Bytes are taken two at a
    time, low byte first; a single byte left at the end is dropped. *)
Fixpoint int16Samples (bs : list byte) : list Z :=
  match bs with
  | lo :: hi :: rest => signed16 (le_combine [lo; hi]) :: int16Samples rest
  | _ => []
  end.

(** Modelled from the spec: [decodeAudioData] of [utils/audio], which is
    not among the sources. Every 16-bit sample is divided by 32768; the
    buffer carries the rate and channel count the caller gave. *)
Definition decodeAudioData (payload : list byte)
    (rate : positive) (numChannels : positive) : AudioBuffer :=
  {| sampleRate := rate;
     numberOfChannels := numChannels;
     samples := map (fun v => v # 32768) (int16Samples payload) |}.

(** Whether a captured sample lies in the nominal range. *)
Definition inUnit (x : Q) : Prop := -1 <= x /\ x <= 1.

End Pcm.

(* ===================================================================== *)
(** ** The live session component                                         *)
(* ===================================================================== *)

Module Live.

Import Pcm.

Local Open Scope string_scope.
Local Open Scope list_scope.

(** Browser and transport objects are known by identity. *)
Definition Handle := nat.

(** The stream [getUserMedia] resolves to, with the tracks [getTracks]
    lists. *)
Record MediaStream := {
  streamId : Handle;
  tracks : list Handle
}.

(** The [Model] enum of [types.ts] and the identifier each member stands
    for. *)
Inductive Model :=
| FLASH | FLASH_LITE | PRO
| FLASH_IMAGE | PRO_IMAGE
| VEO_FAST
| AUDIO_LIVE | TTS.

Definition modelName (m : Model) : string :=
  match m with
  | FLASH => "gemini-2.5-flash"
  | FLASH_LITE => "gemini-flash-lite-latest"
  | PRO => "gemini-3-pro-preview"
  | FLASH_IMAGE => "gemini-2.5-flash-image"
  | PRO_IMAGE => "gemini-3-pro-image-preview"
  | VEO_FAST => "veo-3.1-fast-generate-preview"
  | AUDIO_LIVE => "gemini-2.5-flash-native-audio-preview-09-2025"
  | TTS => "gemini-2.5-flash-preview-tts"
  end.

(** A part of the [contents] of a [generateContent] request. *)
Inductive RequestPart :=
| TextPart (text : string)
| InlinePart (mimeType : string) (data : string).

(** Every call the component makes on an object it does not own: the
    browser's audio and media API and the client and transport of
    [@google/genai]. *)
Inductive Call :=
| GetGeminiClient
| GenerateContent (model : Model) (contents : list RequestPart)
| NewAudioContext (ctx : Handle) (rate : positive)
| CreateGain (ctx node : Handle)
| ConnectNode (node target : Handle)
| ConnectDestination (node ctx : Handle)
| GetUserMedia (stream : Handle)
| LiveConnect (session : Handle)
| CreateMediaStreamSource (ctx stream node : Handle)
| CreateScriptProcessor (ctx node : Handle)
| SendRealtimeInput (session : Handle) (media : WireAudioPayload)
| CreateBufferSource (ctx source : Handle)
| SourceStart (source : Handle) (buffer : AudioBuffer) (when : Q)
| SourceStop (source : Handle)
| SessionClose (session : Handle)
| TrackStop (track : Handle)
| NodeDisconnect (node : Handle)
| ContextClose (ctx : Handle).

(** The calls that give a resource back. *)
Definition isRelease (c : Call) : bool :=
  match c with
  | SourceStop _ | SessionClose _ | TrackStop _
  | NodeDisconnect _ | ContextClose _ => true
  | _ => false
  end.

(** What the component does not decide: which call throws (and with which
    [message]), and what [decode] of [utils/audio] makes of the text of an
    inline payload ([None] when it throws). *)
Record Env := {
  throws : Call -> option string;
  decode : string -> option (list byte)
}.

(** The refs and React state of [AudioLab], followed by the part of the
    outside world the claims speak about: the calls made so far (oldest
    first), the transport sessions connected and not yet closed, the
    messages shown by [alert], and the next unused object identity. *)
Record State := {
  sessionRef : option Handle;
  inputContextRef : option Handle;
  outputContextRef : option Handle;
  streamRef : option MediaStream;
  processorRef : option Handle;
  sourceRef : option Handle;
  nextStartTimeRef : Q;
  sourcesRef : list Handle;
  liveConnected : bool;
  logs : list string;
  trace : list Call;
  openSessions : list Handle;
  alerts : list string;
  nextHandle : Handle
}.

(** The state of a freshly mounted component. *)
Definition mounted : State :=
  {| sessionRef := None; inputContextRef := None; outputContextRef := None;
     streamRef := None; processorRef := None; sourceRef := None;
     nextStartTimeRef := 0; sourcesRef := []; liveConnected := false;
     logs := []; trace := []; openSessions := []; alerts := [];
     nextHandle := O |}.

Definition set_sessionRef (v : option Handle) (s : State) : State :=
  {| sessionRef := v; inputContextRef := inputContextRef s;
     outputContextRef := outputContextRef s; streamRef := streamRef s;
     processorRef := processorRef s; sourceRef := sourceRef s;
     nextStartTimeRef := nextStartTimeRef s; sourcesRef := sourcesRef s;
     liveConnected := liveConnected s; logs := logs s; trace := trace s;
     openSessions := openSessions s; alerts := alerts s;
     nextHandle := nextHandle s |}.

Definition set_inputContextRef (v : option Handle) (s : State) : State :=
  {| sessionRef := sessionRef s; inputContextRef := v;
     outputContextRef := outputContextRef s; streamRef := streamRef s;
     processorRef := processorRef s; sourceRef := sourceRef s;
     nextStartTimeRef := nextStartTimeRef s; sourcesRef := sourcesRef s;
     liveConnected := liveConnected s; logs := logs s; trace := trace s;
     openSessions := openSessions s; alerts := alerts s;
     nextHandle := nextHandle s |}.

Definition set_outputContextRef (v : option Handle) (s : State) : State :=
  {| sessionRef := sessionRef s; inputContextRef := inputContextRef s;
     outputContextRef := v; streamRef := streamRef s;
     processorRef := processorRef s; sourceRef := sourceRef s;
     nextStartTimeRef := nextStartTimeRef s; sourcesRef := sourcesRef s;
     liveConnected := liveConnected s; logs := logs s; trace := trace s;
     openSessions := openSessions s; alerts := alerts s;
     nextHandle := nextHandle s |}.

Definition set_streamRef (v : option MediaStream) (s : State) : State :=
  {| sessionRef := sessionRef s; inputContextRef := inputContextRef s;
     outputContextRef := outputContextRef s; streamRef := v;
     processorRef := processorRef s; sourceRef := sourceRef s;
     nextStartTimeRef := nextStartTimeRef s; sourcesRef := sourcesRef s;
     liveConnected := liveConnected s; logs := logs s; trace := trace s;
     openSessions := openSessions s; alerts := alerts s;
     nextHandle := nextHandle s |}.

Definition set_processorRef (v : option Handle) (s : State) : State :=
  {| sessionRef := sessionRef s; inputContextRef := inputContextRef s;
     outputContextRef := outputContextRef s; streamRef := streamRef s;
     processorRef := v; sourceRef := sourceRef s;
     nextStartTimeRef := nextStartTimeRef s; sourcesRef := sourcesRef s;
     liveConnected := liveConnected s; logs := logs s; trace := trace s;
     openSessions := openSessions s; alerts := alerts s;
     nextHandle := nextHandle s |}.

Definition set_sourceRef (v : option Handle) (s : State) : State :=
  {| sessionRef := sessionRef s; inputContextRef := inputContextRef s;
     outputContextRef := outputContextRef s; streamRef := streamRef s;
     processorRef := processorRef s; sourceRef := v;
     nextStartTimeRef := nextStartTimeRef s; sourcesRef := sourcesRef s;
     liveConnected := liveConnected s; logs := logs s; trace := trace s;
     openSessions := openSessions s; alerts := alerts s;
     nextHandle := nextHandle s |}.

Definition set_nextStartTimeRef (v : Q) (s : State) : State :=
  {| sessionRef := sessionRef s; inputContextRef := inputContextRef s;
     outputContextRef := outputContextRef s; streamRef := streamRef s;
     processorRef := processorRef s; sourceRef := sourceRef s;
     nextStartTimeRef := v; sourcesRef := sourcesRef s;
     liveConnected := liveConnected s; logs := logs s; trace := trace s;
     openSessions := openSessions s; alerts := alerts s;
     nextHandle := nextHandle s |}.

Definition set_sourcesRef (v : list Handle) (s : State) : State :=
  {| sessionRef := sessionRef s; inputContextRef := inputContextRef s;
     outputContextRef := outputContextRef s; streamRef := streamRef s;
     processorRef := processorRef s; sourceRef := sourceRef s;
     nextStartTimeRef := nextStartTimeRef s; sourcesRef := v;
     liveConnected := liveConnected s; logs := logs s; trace := trace s;
     openSessions := openSessions s; alerts := alerts s;
     nextHandle := nextHandle s |}.

Definition set_liveConnected (v : bool) (s : State) : State :=
  {| sessionRef := sessionRef s; inputContextRef := inputContextRef s;
     outputContextRef := outputContextRef s; streamRef := streamRef s;
     processorRef := processorRef s; sourceRef := sourceRef s;
     nextStartTimeRef := nextStartTimeRef s; sourcesRef := sourcesRef s;
     liveConnected := v; logs := logs s; trace := trace s;
     openSessions := openSessions s; alerts := alerts s;
     nextHandle := nextHandle s |}.

Definition set_logs (v : list string) (s : State) : State :=
  {| sessionRef := sessionRef s; inputContextRef := inputContextRef s;
     outputContextRef := outputContextRef s; streamRef := streamRef s;
     processorRef := processorRef s; sourceRef := sourceRef s;
     nextStartTimeRef := nextStartTimeRef s; sourcesRef := sourcesRef s;
     liveConnected := liveConnected s; logs := v; trace := trace s;
     openSessions := openSessions s; alerts := alerts s;
     nextHandle := nextHandle s |}.

Definition set_trace (v : list Call) (s : State) : State :=
  {| sessionRef := sessionRef s; inputContextRef := inputContextRef s;
     outputContextRef := outputContextRef s; streamRef := streamRef s;
     processorRef := processorRef s; sourceRef := sourceRef s;
     nextStartTimeRef := nextStartTimeRef s; sourcesRef := sourcesRef s;
     liveConnected := liveConnected s; logs := logs s; trace := v;
     openSessions := openSessions s; alerts := alerts s;
     nextHandle := nextHandle s |}.

Definition set_openSessions (v : list Handle) (s : State) : State :=
  {| sessionRef := sessionRef s; inputContextRef := inputContextRef s;
     outputContextRef := outputContextRef s; streamRef := streamRef s;
     processorRef := processorRef s; sourceRef := sourceRef s;
     nextStartTimeRef := nextStartTimeRef s; sourcesRef := sourcesRef s;
     liveConnected := liveConnected s; logs := logs s; trace := trace s;
     openSessions := v; alerts := alerts s;
     nextHandle := nextHandle s |}.

Definition set_alerts (v : list string) (s : State) : State :=
  {| sessionRef := sessionRef s; inputContextRef := inputContextRef s;
     outputContextRef := outputContextRef s; streamRef := streamRef s;
     processorRef := processorRef s; sourceRef := sourceRef s;
     nextStartTimeRef := nextStartTimeRef s; sourcesRef := sourcesRef s;
     liveConnected := liveConnected s; logs := logs s; trace := trace s;
     openSessions := openSessions s; alerts := v;
     nextHandle := nextHandle s |}.

Definition set_nextHandle (v : Handle) (s : State) : State :=
  {| sessionRef := sessionRef s; inputContextRef := inputContextRef s;
     outputContextRef := outputContextRef s; streamRef := streamRef s;
     processorRef := processorRef s; sourceRef := sourceRef s;
     nextStartTimeRef := nextStartTimeRef s; sourcesRef := sourcesRef s;
     liveConnected := liveConnected s; logs := logs s; trace := trace s;
     openSessions := openSessions s; alerts := alerts s;
     nextHandle := v |}.

(** *** Handlers as state transformers that may throw *)

Inductive Result (A : Type) :=
| Ok (a : A)
| Throw (message : string).

Arguments Ok {A} a.
Arguments Throw {A} message.

Definition M (A : Type) : Type := State -> Result A * State.

Definition ret {A} (a : A) : M A := fun s => (Ok a, s).

Definition bind {A B} (m : M A) (k : A -> M B) : M B :=
  fun s => match m s with
           | (Ok a, s') => k a s'
           | (Throw e, s') => (Throw e, s')
           end.

Definition throw {A} (e : string) : M A := fun s => (Throw e, s).

(** [try { body } catch (e) { handler }]: what [body] wrote before it threw
    stays written. *)
Definition tryCatch {A} (body : M A) (handler : string -> M A) : M A :=
  fun s => match body s with
           | (Throw e, s') => handler e s'
           | r => r
           end.

Definition read {A} (f : State -> A) : M A := fun s => (Ok (f s), s).

Definition write (f : State -> State) : M unit := fun s => (Ok tt, f s).

(** An expression that returns or throws and leaves the state alone. *)
Definition lift {A} (r : Result A) : M A := fun s => (r, s).

Notation "x <- m ;; k" := (bind m (fun x => k))
  (at level 61, m at next level, right associativity).
Notation "m ;; k" := (bind m (fun _ => k))
  (at level 61, right associativity).

Fixpoint forEach {A} (l : list A) (f : A -> M unit) : M unit :=
  match l with
  | [] => ret tt
  | x :: rest => f x ;; forEach rest f
  end.

(** [if (ref.current) { ... }] *)
Definition whenSome {A} (o : option A) (f : A -> M unit) : M unit :=
  match o with
  | Some a => f a
  | None => ret tt
  end.

(** A handler run by the event loop: an exception it lets escape ends the
    handler and goes no further. *)
Definition dispatch (h : M unit) : M unit :=
  fun s => (Ok tt, snd (h s)).

(** What a call that returns does to the set of open transport sessions. *)
Definition afterCall (c : Call) (open : list Handle) : list Handle :=
  match c with
  | LiveConnect h => open ++ [h]
  | SessionClose h => List.remove Nat.eq_dec h open
  | _ => open
  end.

(** A call on an outside object: it is made (and recorded), then it either
    throws or returns. *)
Definition call (E : Env) (c : Call) : M unit :=
  fun s =>
    let s' := set_trace (trace s ++ [c]) s in
    match throws E c with
    | Some e => (Throw e, s')
    | None => (Ok tt, set_openSessions (afterCall c (openSessions s')) s')
    end.

(** A new object gets the next identity. *)
Definition fresh : M Handle :=
  fun s => (Ok (nextHandle s), set_nextHandle (S (nextHandle s)) s).

Definition setLogs (f : list string -> list string) : M unit :=
  write (fun s => set_logs (f (logs s)) s).

Definition setLiveConnected (b : bool) : M unit :=
  write (set_liveConnected b).

Definition alert (msg : string) : M unit :=
  write (fun s => set_alerts (alerts s ++ [msg]) s).

(** *** Cleanup: [stopLiveSession] *)

Definition stopLiveSession (E : Env) : M unit :=
  (session <- read sessionRef ;;
   whenSome session (fun h =>
     call E (SessionClose h) ;;
     write (set_sessionRef None))) ;;
  (stream <- read streamRef ;;
   whenSome stream (fun m =>
     forEach (tracks m) (fun t => call E (TrackStop t)) ;;
     write (set_streamRef None))) ;;
  (processor <- read processorRef ;;
   whenSome processor (fun p =>
     call E (NodeDisconnect p) ;;
     write (set_processorRef None))) ;;
  (source <- read sourceRef ;;
   whenSome source (fun n =>
     call E (NodeDisconnect n) ;;
     write (set_sourceRef None))) ;;
  (input <- read inputContextRef ;;
   whenSome input (fun c =>
     call E (ContextClose c) ;;
     write (set_inputContextRef None))) ;;
  (output <- read outputContextRef ;;
   whenSome output (fun c =>
     call E (ContextClose c) ;;
     write (set_outputContextRef None))) ;;
  (sources <- read sourcesRef ;;
   forEach sources (fun n => call E (SourceStop n))) ;;
  write (set_sourcesRef []) ;;
  setLiveConnected false ;;
  setLogs (fun prev => prev ++ ["Session ended."]).

(** *** The transport callbacks *)

(** [onopen]: the capture pipeline is wired when both the input context and
    the stream are there. *)
Definition onopen (E : Env) : M unit :=
  setLogs (fun prev => prev ++ ["Connected! Start speaking."]) ;;
  setLiveConnected true ;;
  input <- read inputContextRef ;;
  stream <- read streamRef ;;
  match input, stream with
  | Some ic, Some m =>
      src <- fresh ;;
      call E (CreateMediaStreamSource ic (streamId m) src) ;;
      write (set_sourceRef (Some src)) ;;
      proc <- fresh ;;
      call E (CreateScriptProcessor ic proc) ;;
      write (set_processorRef (Some proc)) ;;
      call E (ConnectNode src proc) ;;
      call E (ConnectDestination proc ic)
  | _, _ => ret tt
  end.

(** [onaudioprocess]: one captured block is encoded and sent on the session
    the connect promise resolved to. *)
Definition onaudioprocess (E : Env) (session : Handle) (inputData : list Q)
  : M unit :=
  let pcmBlob := createPcmBlob inputData in
  call E (SendRealtimeInput session pcmBlob).

(** The shape of [LiveServerMessage] the handler looks at; every field is
    optional, [parts] of a model turn included. *)
Record Blob := { data : option string }.
Record Part := { inlineData : option Blob }.
Record Content := { parts : option (list Part) }.
Record LiveServerContent := {
  modelTurn : option Content;
  interrupted : option bool
}.
Record LiveServerMessage := { serverContent : option LiveServerContent }.

(** [msg.serverContent?.modelTurn?.parts[0]?.inlineData?.data]: every link
    of the chain is optional but [parts[0]], which is read with a plain
    index and throws a [TypeError] on a model turn that has no [parts]. *)
Definition base64Audio (msg : LiveServerMessage) : Result (option string) :=
  match serverContent msg with
  | None => Ok None
  | Some sc =>
      match modelTurn sc with
      | None => Ok None
      | Some turn =>
          match parts turn with
          | None =>
              Throw "Cannot read properties of undefined (reading '0')"
          | Some [] => Ok None
          | Some (part :: _) =>
              match inlineData part with
              | None => Ok None
              | Some blob => Ok (data blob)
              end
          end
      end
  end.

(** A string in a condition: [undefined] and the empty string are false. *)
Definition truthyString (o : option string) : option string :=
  match o with
  | Some "" => None
  | other => other
  end.

(** The payload the condition [base64Audio && ...] finds, when reading it
    has not thrown. *)
Definition audioPayload (msg : LiveServerMessage) : option string :=
  match base64Audio msg with
  | Ok value => truthyString value
  | Throw _ => None
  end.

(** [msg.serverContent?.interrupted] in a condition. *)
Definition isInterrupted (msg : LiveServerMessage) : bool :=
  match serverContent msg with
  | Some sc =>
      match interrupted sc with
      | Some b => b
      | None => false
      end
  | None => false
  end.

(** [Set.prototype.add] and [delete] on [sourcesRef.current], which keeps
    insertion order. *)
Definition setAdd (x : Handle) (l : list Handle) : list Handle :=
  if in_dec Nat.eq_dec x l then l else l ++ [x].

Definition setDelete (x : Handle) (l : list Handle) : list Handle :=
  List.remove Nat.eq_dec x l.

(** [await decodeAudioData(decode(base64Audio), ctx, 24000, 1)]: the
    decoder itself does not wait for anything, so the handler goes on
    before the next transport event is delivered. *)
Definition awaitDecode (E : Env) (b64 : string) : M AudioBuffer :=
  match decode E b64 with
  | Some bytes => ret (decodeAudioData bytes 24000 1)
  | None => throw "decode"
  end.

(** [onmessage]: [outputNode] is the gain node of the surrounding
    [startLiveSession]; [currentTime] is what [ctx.currentTime] reads while
    the message is handled. *)
Definition onmessage (E : Env) (outputNode : Handle) (currentTime : Q)
    (msg : LiveServerMessage) : M unit :=
  base64Audio <- lift (base64Audio msg) ;;
  (output <- read outputContextRef ;;
   match truthyString base64Audio, output with
   | Some b64, Some ctx =>
       write (fun s =>
         set_nextStartTimeRef (Qmax (nextStartTimeRef s) currentTime) s) ;;
       audioBuffer <- awaitDecode E b64 ;;
       source <- fresh ;;
       call E (CreateBufferSource ctx source) ;;
       call E (ConnectNode source outputNode) ;;
       start <- read nextStartTimeRef ;;
       call E (SourceStart source audioBuffer start) ;;
       write (fun s =>
         set_nextStartTimeRef (nextStartTimeRef s + duration audioBuffer) s) ;;
       write (fun s => set_sourcesRef (setAdd source (sourcesRef s)) s)
   | _, _ => ret tt
   end) ;;
  (if isInterrupted msg then
     setLogs (fun prev => prev ++ ["Interrupted."]) ;;
     (sources <- read sourcesRef ;;
      forEach sources (fun n => call E (SourceStop n))) ;;
     write (set_sourcesRef []) ;;
     write (set_nextStartTimeRef 0)
   else ret tt).

(** The ['ended'] listener of a scheduled source. *)
Definition onended (source : Handle) : M unit :=
  write (fun s => set_sourcesRef (setDelete source (sourcesRef s)) s).

Definition onclose : M unit :=
  setLogs (fun prev => prev ++ ["Connection closed."]) ;;
  setLiveConnected false.

Definition onerror : M unit :=
  setLogs (fun prev => prev ++ ["Error occurred."]).

(** *** Connecting: [startLiveSession] *)

(** [await sessionPromise]: once the socket is open the SDK runs [onopen]
    and resolves the promise after it. When [onopen] throws, the exception
    stays with the SDK and the promise never settles: the handler that
    awaits it is not resumed, so its run ends there without an exception,
    what it has done stays, and neither the rest of its [try] nor its
    [catch] runs. *)
Definition awaitOpened (onopen resume : M unit) : M unit :=
  fun s =>
    match onopen s with
    | (Ok _, s') => resume s'
    | (Throw _, s') => (Ok tt, s')
    end.

(** The handler is followed through its two [await]s in one go: the stream
    arrives, the transport connects and calls [onopen], and once [onopen]
    has returned the promise resolves to the session; a call of the handler
    that throws (or a promise that rejects) lands in the [catch]. *)
Definition startLiveSession (E : Env) : M unit :=
  tryCatch
    (setLogs (fun prev => prev ++ ["Connecting..."]) ;;
     call E GetGeminiClient ;;
     ic <- fresh ;;
     call E (NewAudioContext ic 16000) ;;
     write (set_inputContextRef (Some ic)) ;;
     oc <- fresh ;;
     call E (NewAudioContext oc 24000) ;;
     write (set_outputContextRef (Some oc)) ;;
     outputNode <- fresh ;;
     call E (CreateGain oc outputNode) ;;
     call E (ConnectDestination outputNode oc) ;;
     st <- fresh ;;
     track <- fresh ;;
     call E (GetUserMedia st) ;;
     write (set_streamRef (Some {| streamId := st; tracks := [track] |})) ;;
     session <- fresh ;;
     call E (LiveConnect session) ;;
     awaitOpened (onopen E) (write (set_sessionRef (Some session))))
    (fun message =>
       alert (String.append "Failed to start live session: " message) ;;
       setLiveConnected false).

(** *** The two buttons *)

Inductive Control := StartConversation | EndSession.

(** [{!liveConnected ? <button onClick={startLiveSession}> :
    <button onClick={stopLiveSession}>}] *)
Definition offered (s : State) : Control :=
  if liveConnected s then EndSession else StartConversation.

Definition onClick (E : Env) (c : Control) : M unit :=
  match c with
  | StartConversation => startLiveSession E
  | EndSession => stopLiveSession E
  end.

(** A press on the button on display. *)
Definition click (E : Env) : M unit :=
  c <- read offered ;; dispatch (onClick E c).

Fixpoint clicks (E : Env) (n : nat) : M unit :=
  match n with
  | O => ret tt
  | S k => click E ;; clicks E k
  end.

(** *** Views of the state the claims speak about *)

(** The handles of the devices, nodes and transport. *)
Definition resources (s : State)
  : option Handle * option MediaStream * option Handle * option Handle
    * option Handle * option Handle :=
  (sessionRef s, streamRef s, processorRef s, sourceRef s,
   inputContextRef s, outputContextRef s).

Definition noResources
  : option Handle * option MediaStream * option Handle * option Handle
    * option Handle * option Handle :=
  (None, None, None, None, None, None).

(** The playback state: the cursor and the active set. *)
Definition playback (s : State) : Q * list Handle :=
  (nextStartTimeRef s, sourcesRef s).

(** Everything is given back and nothing is scheduled. *)
Definition released (s : State) : Prop :=
  resources s = noResources /\ sourcesRef s = [].

(** The calls a run of a handler has added to the trace. *)
Definition callsOf {A} (m : M A) (s : State) : list Call :=
  skipn (List.length (trace s)) (trace (snd (m s))).

(** The scheduled playbacks among some calls: start time and buffer. *)
Fixpoint scheduled (cs : list Call) : list (Q * AudioBuffer) :=
  match cs with
  | [] => []
  | SourceStart _ buffer when :: rest => (when, buffer) :: scheduled rest
  | _ :: rest => scheduled rest
  end.

(** Messages handled one after the other, each with its clock reading. *)
Fixpoint deliver (E : Env) (outputNode : Handle)
    (msgs : list (Q * LiveServerMessage)) : M unit :=
  match msgs with
  | [] => ret tt
  | (currentTime, msg) :: rest =>
      dispatch (onmessage E outputNode currentTime msg) ;;
      deliver E outputNode rest
  end.

(** *** What the statements below are phrased with *)

(** A view of the state is left as it was. *)
Definition keeps {A B} (f : State -> A) (m : M B) : Prop :=
  forall s, f (snd (m s)) = f s.

(** A property of the state survives the handler, thrown or not. *)
Definition preserves {A} (P : State -> Prop) (m : M A) : Prop :=
  forall s, P s -> P (snd (m s)).

(** A handler that returns has established [P]. *)
Definition ensures (m : M unit) (P : State -> Prop) : Prop :=
  forall s, fst (m s) = Ok tt -> P (snd (m s)).

(** Every call the handler adds to the trace satisfies [P]. *)
Definition callsAll {A} (P : Call -> Prop) (m : M A) : Prop :=
  forall s, exists cs, trace (snd (m s)) = trace s ++ cs /\ Forall P cs.

(** Of a list of calls made in order, the ones that are reached: all up to
    and including the first that throws. *)
Fixpoint untilThrow (E : Env) (cs : list Call) : list Call :=
  match cs with
  | [] => []
  | c :: rest =>
      c :: match throws E c with
           | Some _ => []
           | None => untilThrow E rest
           end
  end.

Fixpoint firstThrow (E : Env) (cs : list Call) : option string :=
  match cs with
  | [] => None
  | c :: rest =>
      match throws E c with
      | Some e => Some e
      | None => firstThrow E rest
      end
  end.

Definition outcome (o : option string) : Result unit :=
  match o with
  | Some e => Throw e
  | None => Ok tt
  end.

(** The handler makes the calls [cs] in order and stops at the first that
    throws. *)
Definition emits (E : Env) (m : M unit) (cs : State -> list Call) : Prop :=
  forall s,
    trace (snd (m s)) = trace s ++ untilThrow E (cs s) /\
    fst (m s) = outcome (firstThrow E (cs s)).

Definition option_list {A B} (f : A -> B) (o : option A) : list B :=
  match o with
  | Some a => [f a]
  | None => []
  end.

(** The release steps of a session close in the order the spec lists them:
    the transport, the tracks of the capture stream, the two processing
    nodes, the input and the output context, the scheduled buffers. *)
Definition teardownCalls (s : State) : list Call :=
  option_list SessionClose (sessionRef s) ++
  match streamRef s with
  | Some m => map TrackStop (tracks m)
  | None => []
  end ++
  option_list NodeDisconnect (processorRef s) ++
  option_list NodeDisconnect (sourceRef s) ++
  option_list ContextClose (inputContextRef s) ++
  option_list ContextClose (outputContextRef s) ++
  map SourceStop (sourcesRef s).

(** The calls that only touch scheduled playback. *)
Definition playbackCall (c : Call) : bool :=
  match c with
  | CreateBufferSource _ _ | ConnectNode _ _
  | SourceStart _ _ _ | SourceStop _ => true
  | _ => false
  end.

(** The buffer a message makes the handler schedule, if any. *)
Definition audioOf (E : Env) (msg : LiveServerMessage) : option AudioBuffer :=
  match audioPayload msg with
  | Some b64 =>
      match decode E b64 with
      | Some bytes => Some (decodeAudioData bytes 24000 1)
      | None => None
      end
  | None => None
  end.

(** An arrival that carries the decodable buffer [buffer] and no
    interruption flag. *)
Definition audioChunk (E : Env) (arrival : Q * LiveServerMessage)
    (buffer : AudioBuffer) : Prop :=
  audioOf E (snd arrival) = Some buffer /\ isInterrupted (snd arrival) = false.

(** The playback scheduler in the spec's words: a buffer starts at
    [max(nextStartTime, currentClockTime)] and the cursor moves on by its
    duration. The result is the plan and the final cursor. *)
Fixpoint scheduleSpec (nextStartTime : Q) (arrivals : list (Q * AudioBuffer))
  : list (Q * AudioBuffer) * Q :=
  match arrivals with
  | [] => ([], nextStartTime)
  | (currentClockTime, buffer) :: rest =>
      let start := Qmax nextStartTime currentClockTime in
      let (plan, cursor) := scheduleSpec (start + duration buffer)%Q rest in
      ((start, buffer) :: plan, cursor)
  end.

(** Start times do not decrease and no buffer starts before the one before
    it has played out. *)
Fixpoint backToBack (plan : list (Q * AudioBuffer)) : Prop :=
  match plan with
  | (t1, b1) :: (((t2, _) :: _) as rest) =>
      (t1 <= t2)%Q /\ (t1 + duration b1 <= t2)%Q /\ backToBack rest
  | _ => True
  end.

(** No transport session is open, or exactly the one [sessionRef] holds
    while the End Session button is on display. *)
Definition oneSession (s : State) : Prop :=
  openSessions s = [] \/
  exists h, openSessions s = [h] /\ sessionRef s = Some h /\
            liveConnected s = true.

(** *** Sample environments, states and messages *)

(** [decode] standing in for the base64 reader: one byte per character. *)
Definition asciiBytes (b64 : string) : option (list byte) :=
  Some (map (fun a => byte.of_Z (Z.of_nat (Ascii.nat_of_ascii a)))
          (list_ascii_of_string b64)).

(** Nothing throws. *)
Definition quiet : Env :=
  {| throws := fun _ => None; decode := asciiBytes |}.

(** The user refuses the microphone. *)
Definition micDenied : Env :=
  {| throws := fun c => match c with
                        | GetUserMedia _ => Some "Permission denied"
                        | _ => None
                        end;
     decode := asciiBytes |}.

(** The transport rejects the connection. *)
Definition transportRejected : Env :=
  {| throws := fun c => match c with
                        | LiveConnect _ => Some "Connection refused"
                        | _ => None
                        end;
     decode := asciiBytes |}.

(** Closing the transport throws. *)
Definition closeFails : Env :=
  {| throws := fun c => match c with
                        | SessionClose _ => Some "close failed"
                        | _ => None
                        end;
     decode := asciiBytes |}.

(** Nothing throws, and [decode] rejects every payload. *)
Definition undecodable : Env :=
  {| throws := fun _ => None; decode := fun _ => None |}.

(** The component after a first successful start. *)
Definition connected : State := snd (startLiveSession quiet mounted).

Definition audioMessage (b64 : string) : LiveServerMessage :=
  {| serverContent :=
       Some {| modelTurn :=
                 Some {| parts :=
                           Some [{| inlineData :=
                                      Some {| data := Some b64 |} |}] |};
               interrupted := None |} |}.

Definition interruption : LiveServerMessage :=
  {| serverContent := Some {| modelTurn := None; interrupted := Some true |} |}.

Definition turnComplete : LiveServerMessage :=
  {| serverContent := Some {| modelTurn := None; interrupted := None |} |}.

(** The buffer the handler makes of a payload text under [asciiBytes]. *)
Definition bufferOfText (b64 : string) : AudioBuffer :=
  decodeAudioData
    (map (fun a => byte.of_Z (Z.of_nat (Ascii.nat_of_ascii a)))
       (list_ascii_of_string b64))
    24000 1.

(** Two audio messages with the clock readings at their arrival, and the
    buffers they decode to. *)
Definition sampleArrivals : list (Q * LiveServerMessage) :=
  [((1 # 2)%Q, audioMessage "abcdefgh"); (3%Q, audioMessage "abcd")].

Definition sampleBuffers : list AudioBuffer :=
  [bufferOfText "abcdefgh"; bufferOfText "abcd"].

(** The connected component while both buffers are scheduled. *)
Definition playing : State :=
  snd (deliver quiet 2%nat sampleArrivals connected).

(** The calls of [startLiveSession] up to the connection, in order, with
    the identities the new objects get. *)
Definition startCalls (s : State) : list Call :=
  let n := nextHandle s in
  [GetGeminiClient;
   NewAudioContext n 16000;
   NewAudioContext (S n) 24000;
   CreateGain (S n) (S (S n));
   ConnectDestination (S (S n)) (S n);
   GetUserMedia (S (S (S n)));
   LiveConnect (S (S (S (S (S n)))))].

(** A model turn that has no [parts]: neither audio nor the interruption
    flag. *)
Definition partlessTurn : LiveServerMessage :=
  {| serverContent :=
       Some {| modelTurn := Some {| parts := None |};
               interrupted := None |} |}.

(** The calls of [onopen] in a start from [s] once the transport is open,
    in order, with the identities the new nodes get. *)
Definition openCalls (s : State) : list Call :=
  let n := nextHandle s in
  [CreateMediaStreamSource n (3 + n)%nat (6 + n)%nat;
   CreateScriptProcessor n (7 + n)%nat;
   ConnectNode (6 + n)%nat (7 + n)%nat;
   ConnectDestination (7 + n)%nat n].

(** An environment in which the capture source cannot be made in [onopen]
    (a browser that refuses a stream of another sample rate). *)
Definition wiringFails : Env :=
  {| throws := fun c =>
       match c with
       | CreateMediaStreamSource _ _ _ => Some "NotSupportedError"
       | _ => None
       end;
     decode := asciiBytes |}.

(** A message that carries audio and the interruption flag. *)
Definition interruptedAudio (b64 : string) : LiveServerMessage :=
  {| serverContent :=
       Some {| modelTurn :=
                 Some {| parts :=
                           Some [{| inlineData :=
                                      Some {| data := Some b64 |} |}] |};
               interrupted := Some true |} |}.

End Live.

(* ===================================================================== *)
(** ** The other two tabs: [handleTTS] and [handleTranscribe]             *)
(* ===================================================================== *)

Module Lab.

Import Pcm Live.

Local Open Scope string_scope.
Local Open Scope list_scope.

Inductive Tab := LiveTab | TtsTab | TranscribeTab.

(** What the handlers read of a chosen [File]. *)
Record File := {
  name : string;
  type : string
}.

(** The part of a [generateContent] response the handlers look at. *)
Record ResponseContent := { parts : option (list Part) }.
Record Candidate := { content : option ResponseContent }.
Record GenerateContentResponse := {
  candidates : option (list Candidate);
  text : option string
}.

(** What the remote end and the missing [utils/audio] decide: the calls
    that throw and the [decode] of a payload (as for the live session), the
    response to a request that does not throw, and what [blobToBase64]
    resolves to or rejects with. *)
Record Remote := {
  browser : Env;
  generateContent : Model -> list RequestPart -> GenerateContentResponse;
  blobToBase64 : File -> Result string
}.

(** The component state: the live-session part and the [useState] cells of
    the two other tabs. *)
Record Panel := {
  live : State;
  activeTab : Tab;
  ttsInput : string;
  ttsLoading : bool;
  audioUrl : option string;
  transcribeFile : option File;
  transcribeResult : string;
  transcribeLoading : bool
}.

Definition set_live (v : State) (p : Panel) : Panel :=
  {| live := v; activeTab := activeTab p; ttsInput := ttsInput p;
     ttsLoading := ttsLoading p; audioUrl := audioUrl p;
     transcribeFile := transcribeFile p;
     transcribeResult := transcribeResult p;
     transcribeLoading := transcribeLoading p |}.

Definition setActiveTab (v : Tab) (p : Panel) : Panel :=
  {| live := live p; activeTab := v; ttsInput := ttsInput p;
     ttsLoading := ttsLoading p; audioUrl := audioUrl p;
     transcribeFile := transcribeFile p;
     transcribeResult := transcribeResult p;
     transcribeLoading := transcribeLoading p |}.

Definition setTtsInput (v : string) (p : Panel) : Panel :=
  {| live := live p; activeTab := activeTab p; ttsInput := v;
     ttsLoading := ttsLoading p; audioUrl := audioUrl p;
     transcribeFile := transcribeFile p;
     transcribeResult := transcribeResult p;
     transcribeLoading := transcribeLoading p |}.

Definition setTtsLoading (v : bool) (p : Panel) : Panel :=
  {| live := live p; activeTab := activeTab p; ttsInput := ttsInput p;
     ttsLoading := v; audioUrl := audioUrl p;
     transcribeFile := transcribeFile p;
     transcribeResult := transcribeResult p;
     transcribeLoading := transcribeLoading p |}.

Definition setTranscribeFile (v : option File) (p : Panel) : Panel :=
  {| live := live p; activeTab := activeTab p; ttsInput := ttsInput p;
     ttsLoading := ttsLoading p; audioUrl := audioUrl p;
     transcribeFile := v;
     transcribeResult := transcribeResult p;
     transcribeLoading := transcribeLoading p |}.

Definition setTranscribeResult (v : string) (p : Panel) : Panel :=
  {| live := live p; activeTab := activeTab p; ttsInput := ttsInput p;
     ttsLoading := ttsLoading p; audioUrl := audioUrl p;
     transcribeFile := transcribeFile p;
     transcribeResult := v;
     transcribeLoading := transcribeLoading p |}.

Definition setTranscribeLoading (v : bool) (p : Panel) : Panel :=
  {| live := live p; activeTab := activeTab p; ttsInput := ttsInput p;
     ttsLoading := ttsLoading p; audioUrl := audioUrl p;
     transcribeFile := transcribeFile p;
     transcribeResult := transcribeResult p;
     transcribeLoading := v |}.

(** The panel right after mounting. *)
Definition opened : Panel :=
  {| live := mounted; activeTab := LiveTab; ttsInput := "";
     ttsLoading := false; audioUrl := None; transcribeFile := None;
     transcribeResult := ""; transcribeLoading := false |}.

(** Handlers over the whole panel. *)
Definition L (A : Type) : Type := Panel -> Result A * Panel.

Definition retL {A} (a : A) : L A := fun p => (Ok a, p).

Definition bindL {A B} (m : L A) (k : A -> L B) : L B :=
  fun p => match m p with
           | (Ok a, p') => k a p'
           | (Throw e, p') => (Throw e, p')
           end.

Definition readL {A} (f : Panel -> A) : L A := fun p => (Ok (f p), p).

Definition writeL (f : Panel -> Panel) : L unit := fun p => (Ok tt, f p).

(** A step that only concerns the live-session part. *)
Definition liveL {A} (m : M A) : L A :=
  fun p => let (r, s) := m (live p) in (r, set_live s p).

(** [await] of a promise that resolved or rejected. *)
Definition awaitL {A} (r : Result A) : L A := fun p => (r, p).

Definition tryCatchL {A} (body : L A) (handler : string -> L A) : L A :=
  fun p => match body p with
           | (Throw e, p') => handler e p'
           | r => r
           end.

(** [try { body } finally { cleanup }]: the cleanup runs either way, and an
    exception of the body goes on after it. *)
Definition tryFinallyL {A} (body : L A) (cleanup : L unit) : L A :=
  fun p => match body p with
           | (r, p') =>
               match cleanup p' with
               | (Ok _, p'') => (r, p'')
               | (Throw e, p'') => (Throw e, p'')
               end
           end.

Notation "x <~ m ;; k" := (bindL m (fun x => k))
  (at level 61, m at next level, right associativity).
Notation "m ;;; k" := (bindL m (fun _ => k))
  (at level 61, right associativity).

(** [response.candidates?.[0]?.content?.parts?.[0]?.inlineData?.data] *)
Definition speechAudio (response : GenerateContentResponse) : option string :=
  match candidates response with
  | Some (candidate :: _) =>
      match content candidate with
      | Some c =>
          match parts c with
          | Some (part :: _) =>
              match inlineData part with
              | Some blob => Live.data blob
              | None => None
              end
          | _ => None
          end
      | None => None
      end
  | _ => None
  end.

(** [value || fallback] on strings. *)
Definition orElse (value : option string) (fallback : string) : string :=
  match truthyString value with
  | Some v => v
  | None => fallback
  end.

(** [handleTTS]: the speech is played at once on an audio context of its
    own. *)
Definition handleTTS (R : Remote) : L unit :=
  input <~ readL ttsInput ;;
  match truthyString (Some input) with
  | None => retL tt
  | Some _ =>
      writeL (setTtsLoading true) ;;;
      tryFinallyL
        (tryCatchL
           (liveL (call (browser R) GetGeminiClient) ;;;
            let contents := [TextPart input] in
            liveL (call (browser R) (GenerateContent TTS contents)) ;;;
            let response := generateContent R TTS contents in
            match truthyString (speechAudio response) with
            | Some base64Audio =>
                ctx <~ liveL fresh ;;
                liveL (call (browser R) (NewAudioContext ctx 24000)) ;;;
                audioBuffer <~ liveL (awaitDecode (browser R) base64Audio) ;;
                source <~ liveL fresh ;;
                liveL (call (browser R) (CreateBufferSource ctx source)) ;;;
                liveL (call (browser R) (ConnectDestination source ctx)) ;;;
                liveL (call (browser R) (SourceStart source audioBuffer 0)) ;;;
                liveL (setLogs
                         (fun prev => prev ++ ["Playing generated speech..."]))
            | None => retL tt
            end)
           (fun message => liveL (alert (String.append "TTS Failed: " message))))
        (writeL (setTtsLoading false))
  end.

(** [handleTranscribe] *)
Definition handleTranscribe (R : Remote) : L unit :=
  file <~ readL transcribeFile ;;
  match file with
  | None => retL tt
  | Some f =>
      writeL (setTranscribeLoading true) ;;;
      tryFinallyL
        (tryCatchL
           (base64 <~ awaitL (blobToBase64 R f) ;;
            liveL (call (browser R) GetGeminiClient) ;;;
            let contents :=
              [InlinePart (type f) base64;
               TextPart "Transcribe this audio file."] in
            liveL (call (browser R) (GenerateContent FLASH contents)) ;;;
            let response := generateContent R FLASH contents in
            writeL (setTranscribeResult
                      (orElse (text response) "No transcription available.")))
           (fun message =>
              liveL (alert (String.append "Transcription failed: " message))))
        (writeL (setTranscribeLoading false))
  end.

(** The cleanup of the mount effect: [() => stopLiveSession()]. *)
Definition unmount (E : Env) : M unit := dispatch (stopLiveSession E).

(** Sample remote ends. *)
Definition speaking (b64 : string) : Remote :=
  {| browser := quiet;
     generateContent := fun _ _ =>
       {| candidates :=
            Some [{| content :=
                       Some {| parts :=
                                 Some [{| inlineData :=
                                            Some {| Live.data := Some b64 |} |}]
                            |} |}];
          text := None |};
     blobToBase64 := fun _ => Ok "AAAA" |}.

Definition answering (reply : option string) : Remote :=
  {| browser := quiet;
     generateContent := fun _ _ => {| candidates := None; text := reply |};
     blobToBase64 := fun _ => Ok "AAAA" |}.

Definition offline : Remote :=
  {| browser :=
       {| throws := fun c => match c with
                             | GenerateContent _ _ => Some "Failed to fetch"
                             | _ => None
                             end;
          decode := asciiBytes |};
     generateContent := fun _ _ => {| candidates := None; text := None |};
     blobToBase64 := fun _ => Ok "AAAA" |}.

(** A property of the live-session part survives a panel handler. *)
Definition preservesL {A} (P : State -> Prop) (m : L A) : Prop :=
  forall p, P (live p) -> P (live (snd (m p))).

(** A view of the live-session part is left as it was. *)
Definition keepsLive {A B} (f : State -> A) (m : L B) : Prop :=
  forall p, f (live (snd (m p))) = f (live p).

(** A view of the panel is left as it was. *)
Definition keepsPanel {A B} (f : Panel -> A) (m : L B) : Prop :=
  forall p, f (snd (m p)) = f p.

(** Every call a panel handler adds to the trace satisfies [P]. *)
Definition callsAllL {A} (P : Call -> Prop) (m : L A) : Prop :=
  forall p, exists cs,
    trace (live (snd (m p))) = trace (live p) ++ cs /\ Forall P cs.

(** The calls a run of a panel handler has added to the trace. *)
Definition callsOfL {A} (m : L A) (p : Panel) : list Call :=
  skipn (List.length (trace (live p))) (trace (live (snd (m p)))).

(** A remote end for a file that cannot be read. *)
Definition unreadable : Remote :=
  {| browser := quiet;
     generateContent := fun _ _ => {| candidates := None; text := None |};
     blobToBase64 := fun _ => Throw "NotReadableError" |}.

(** The panel with a text typed in, and with a file chosen. *)
Definition typed : Panel := setTtsInput "hello" opened.

Definition wav : File := {| name := "memo.wav"; type := "audio/wav" |}.

Definition chosen : Panel := setTranscribeFile (Some wav) opened.

End Lab.

(* ===================================================================== *)
(** ** Facts about the PCM frames                                         *)
(* ===================================================================== *)

Import Pcm.

Local Open Scope Q_scope.

Lemma signed16_wrap (v : Z) :
  (-32768 <= v <= 32767)%Z -> signed16 (v mod 65536) = v.
Proof.
  intros Hv. unfold signed16.
  destruct (Z.ltb_spec (v mod 65536) 32768) as [Hlt | Hge].
  - destruct (Z_lt_le_dec v 0) as [Hneg | Hpos].
    + replace v with ((v + 65536) - 1 * 65536)%Z in Hlt by ring.
      rewrite Zminus_mod, Z_mod_mult, Z.sub_0_r, Zmod_mod in Hlt.
      rewrite Z.mod_small in Hlt by lia. lia.
    + apply Z.mod_small. lia.
  - destruct (Z_lt_le_dec v 0) as [Hneg | Hpos].
    + replace v with ((v + 65536) - 1 * 65536)%Z at 1 by ring.
      rewrite Zminus_mod, Z_mod_mult, Z.sub_0_r, Zmod_mod.
      rewrite Z.mod_small by lia. lia.
    + rewrite Z.mod_small in Hge by lia. lia.
Qed.

(** Reading back what [le_split 2] wrote gives the 16-bit values again. *)
Lemma int16Samples_le_split {A} (f : A -> Z) (xs : list A) :
  (forall x, -32768 <= f x <= 32767)%Z ->
  int16Samples (flat_map (fun x => le_split 2 (f x)) xs) = map f xs.
Proof.
  intros Hf. induction xs as [| x xs IH]; [reflexivity |].
  cbn [flat_map map].
  assert (Hc : le_combine (le_split 2 (f x)) = (f x mod 65536)%Z)
    by (rewrite le_combine_split; reflexivity).
  change (le_split 2 (f x))
    with [byte.of_Z (f x); byte.of_Z (Z.shiftr (f x) 8)] in *.
  cbn [app int16Samples].
  rewrite Hc, signed16_wrap, IH by apply Hf. reflexivity.
Qed.

Lemma encodeSample_int16 (x : Q) : (-32768 <= encodeSample x <= 32767)%Z.
Proof. unfold encodeSample, clampInt16. lia. Qed.

Lemma clampUnit_id (x : Q) : inUnit x -> clampUnit x == x.
Proof.
  intros [Hlo Hhi]. unfold clampUnit.
  rewrite (Q.min_r 1 x) by assumption.
  apply Q.max_r. assumption.
Qed.

Lemma roundNearest_bounds (q : Q) :
  inject_Z (roundNearest q) <= q + (1 # 2) /\
  q - (1 # 2) < inject_Z (roundNearest q).
Proof.
  unfold roundNearest. split.
  - apply Qfloor_le.
  - pose proof (Qlt_floor (q + (1 # 2))) as H.
    rewrite inject_Z_plus in H. change (inject_Z 1) with 1 in H. lra.
Qed.

(** In range nothing is clamped: the quantiser is the rounding of
    [32767 * x], which stays within [-32767, 32767]. *)
Lemma encodeSample_unit (x : Q) :
  inUnit x -> encodeSample x = roundNearest (32767 * x) /\
              (-32767 <= roundNearest (32767 * x) <= 32767)%Z.
Proof.
  intros Hx. pose proof (clampUnit_id x Hx) as Hc.
  assert (Hr : roundNearest (32767 * clampUnit x) = roundNearest (32767 * x)).
  { unfold roundNearest. apply Qfloor_comp. rewrite Hc. reflexivity. }
  destruct (roundNearest_bounds (32767 * x)) as [Hup Hdown].
  destruct Hx as [Hlo Hhi].
  assert (Hrange : (-32767 <= roundNearest (32767 * x) <= 32767)%Z).
  { assert (H1 : inject_Z (-32768) < inject_Z (roundNearest (32767 * x)))
      by (change (inject_Z (-32768)) with (-32768 # 1); lra).
    assert (H2 : inject_Z (roundNearest (32767 * x)) < inject_Z 32768)
      by (change (inject_Z 32768) with (32768 # 1); lra).
    rewrite <- Zlt_Qlt in H1, H2. lia. }
  split; [| exact Hrange].
  unfold encodeSample, clampInt16. rewrite Hr. lia.
Qed.

Lemma quantisation_error (x : Q) :
  inUnit x -> Qabs ((encodeSample x # 32768) - x) <= 3 # 65536.
Proof.
  intros Hx. destruct (encodeSample_unit x Hx) as [-> _].
  destruct (roundNearest_bounds (32767 * x)) as [Hup Hdown].
  destruct Hx as [Hlo Hhi].
  rewrite (Qmake_Qdiv (roundNearest (32767 * x)) 32768).
  unfold Qdiv. change (/ inject_Z (Z.pos 32768)) with (1 # 32768).
  apply Qabs_Qle_condition. split; lra.
Qed.

(** Decoding an encoded block gives the quantised samples over 32768. *)
Lemma createPcmBlob_decode (xs : list Q) (rate ch : positive) :
  samples (decodeAudioData (Pcm.data (createPcmBlob xs)) rate ch)
  = map (fun x => encodeSample x # 32768) xs.
Proof.
  unfold decodeAudioData, createPcmBlob. cbn [samples Pcm.data].
  rewrite (int16Samples_le_split encodeSample xs encodeSample_int16).
  apply map_map.
Qed.

Lemma decodeAudioData_length (payload : list byte) (rate ch : positive) :
  List.length (samples (decodeAudioData payload rate ch))
  = Nat.div2 (List.length payload).
Proof.
  unfold decodeAudioData. cbn [samples]. rewrite length_map.
  induction payload as [payload IH] using (well_founded_induction
    (Wf_nat.well_founded_ltof _ (@List.length byte))).
  destruct payload as [| b0 [| b1 rest]]; [reflexivity | reflexivity |].
  cbn [int16Samples List.length Nat.div2]. f_equal. apply IH.
  unfold Wf_nat.ltof. cbn. lia.
Qed.

(** C6 as the spec states it is false: with the scale 32767 on the way out
    and 32768 on the way back, the sample 131069/131072 comes back as
    32766/32768, which is 5/131072 away, more than 1/32768. *)
Lemma pcm_roundtrip_one_step_fails :
  ~ (forall (xs : list Q) (rate ch : positive),
       Forall inUnit xs ->
       Forall2 (fun x y => Qabs (y - x) <= 1 # 32768) xs
         (samples (decodeAudioData (Pcm.data (createPcmBlob xs)) rate ch))).
Proof.
  intros H.
  specialize (H [131069 # 131072] 16000%positive 1%positive).
  assert (Hin : Forall inUnit [131069 # 131072]).
  { repeat constructor; unfold Qle; simpl; lia. }
  specialize (H Hin).
  inversion H as [| x y l l' Hbad _ Hx Hy]; subst.
  vm_compute in Hbad. apply Hbad. reflexivity.
Qed.

(** C6, amended: for a block of samples in [-1, 1], decoding the encoded
    payload gives a block of the same length, and every sample is within
    3/65536 (one and a half steps of 1/32768) of the original. *)
Theorem pcm_roundtrip_error (xs : list Q) (rate ch : positive) :
  Forall inUnit xs ->
  Forall2 (fun x y => Qabs (y - x) <= 3 # 65536) xs
    (samples (decodeAudioData (Pcm.data (createPcmBlob xs)) rate ch)).
Proof.
  intros Hxs. rewrite createPcmBlob_decode.
  induction Hxs as [| x xs Hx _ IH]; cbn [map]; constructor.
  - apply quantisation_error. exact Hx.
  - exact IH.
Qed.

Lemma pcm_roundtrip_error_witness :
  Forall inUnit [131069 # 131072; -1; 0] /\
  Forall2 (fun x y => Qabs (y - x) <= 3 # 65536) [131069 # 131072; -1; 0]
    (samples
       (decodeAudioData (Pcm.data (createPcmBlob [131069 # 131072; -1; 0]))
          16000 1)).
Proof.
  assert (H : Forall inUnit [131069 # 131072; -1; 0]).
  { repeat constructor; unfold Qle; simpl; lia. }
  split; [exact H | apply (pcm_roundtrip_error _ 16000 1 H)].
Defined.

(** C7: the decoder has a result for every payload; the empty payload gives
    the empty buffer, and a payload of [2n+1] bytes gives exactly [n]
    samples, the last byte being dropped. *)
Theorem decodeAudioData_odd_payload (rate ch : positive) :
  samples (decodeAudioData [] rate ch) = [] /\
  forall (n : nat) (payload : list byte),
    List.length payload = (2 * n + 1)%nat ->
    List.length (samples (decodeAudioData payload rate ch)) = n.
Proof.
  split; [reflexivity |].
  intros n payload Hlen. rewrite decodeAudioData_length, Hlen.
  replace (2 * n + 1)%nat with (S (2 * n)) by lia.
  apply Nat.div2_succ_double.
Qed.

Lemma decodeAudioData_odd_payload_witness :
  List.length [Byte.x01; Byte.x02; Byte.x03] = (2 * 1 + 1)%nat /\
  List.length
    (samples (decodeAudioData [Byte.x01; Byte.x02; Byte.x03] 24000 1))
  = 1%nat.
Proof.
  split; [reflexivity |].
  apply (proj2 (decodeAudioData_odd_payload 24000 1) 1%nat). reflexivity.
Defined.

(* ===================================================================== *)
(** ** Facts about the live session                                       *)
(* ===================================================================== *)

Import Live.

Arguments call : simpl never.

(** *** Traces *)

Lemma skipn_app_length {A} (a b : list A) : skipn (List.length a) (a ++ b) = b.
Proof. induction a as [| x a IH]; [reflexivity | exact IH]. Qed.

Lemma callsOf_app {A} (m : M A) s cs :
  trace (snd (m s)) = trace s ++ cs -> callsOf m s = cs.
Proof. unfold callsOf. intros ->. apply skipn_app_length. Qed.

Lemma untilThrow_app E a b :
  untilThrow E (a ++ b) =
  match firstThrow E a with
  | Some _ => untilThrow E a
  | None => a ++ untilThrow E b
  end.
Proof.
  induction a as [| c a IH]; [reflexivity |].
  cbn. destruct (throws E c); [reflexivity |].
  rewrite IH. destruct (firstThrow E a); reflexivity.
Qed.

Lemma firstThrow_app E a b :
  firstThrow E (a ++ b) =
  match firstThrow E a with
  | Some e => Some e
  | None => firstThrow E b
  end.
Proof.
  induction a as [| c a IH]; [reflexivity |].
  cbn. destruct (throws E c); [reflexivity | exact IH].
Qed.

Lemma untilThrow_quiet E cs : firstThrow E cs = None -> untilThrow E cs = cs.
Proof.
  induction cs as [| c cs IH]; [reflexivity |].
  cbn. destruct (throws E c); [discriminate |].
  intros H. rewrite (IH H). reflexivity.
Qed.

(** *** What a handler leaves alone *)

Lemma preserves_ret {A} (P : State -> Prop) (a : A) : preserves P (ret a).
Proof. intros s H. exact H. Qed.

Lemma preserves_throw {A} (P : State -> Prop) e : preserves P (@throw A e).
Proof. intros s H. exact H. Qed.

Lemma preserves_read {A} (P : State -> Prop) (g : State -> A) :
  preserves P (read g).
Proof. intros s H. exact H. Qed.

Lemma preserves_write (P : State -> Prop) g :
  (forall s, P s -> P (g s)) -> preserves P (write g).
Proof. intros H s. apply H. Qed.

Lemma preserves_bind {A B} (P : State -> Prop) (m : M A) (k : A -> M B) :
  preserves P m -> (forall a, preserves P (k a)) -> preserves P (bind m k).
Proof.
  intros Hm Hk s Hs. unfold bind. specialize (Hm s Hs).
  destruct (m s) as [[a | e] s1]; cbn in *.
  - apply Hk. exact Hm.
  - exact Hm.
Qed.

Lemma preserves_tryCatch {A} (P : State -> Prop) (m : M A) h :
  preserves P m -> (forall e, preserves P (h e)) -> preserves P (tryCatch m h).
Proof.
  intros Hm Hh s Hs. unfold tryCatch. specialize (Hm s Hs).
  destruct (m s) as [[a | e] s1]; cbn in *.
  - exact Hm.
  - apply Hh. exact Hm.
Qed.

Lemma preserves_dispatch (P : State -> Prop) m :
  preserves P m -> preserves P (dispatch m).
Proof. intros Hm s. apply Hm. Qed.

Lemma preserves_lift {A} (P : State -> Prop) (r : Result A) :
  preserves P (lift r).
Proof. intros s H. exact H. Qed.

Lemma preserves_awaitOpened (P : State -> Prop) m k :
  preserves P m -> preserves P k -> preserves P (awaitOpened m k).
Proof.
  intros Hm Hk s Hs. unfold awaitOpened. specialize (Hm s Hs).
  destruct (m s) as [[a | e] s1]; cbn in *.
  - apply Hk. exact Hm.
  - exact Hm.
Qed.

Lemma preserves_call (P : State -> Prop) E c :
  (forall v s, P s -> P (set_trace v s)) ->
  (forall s, P s -> P (set_openSessions (afterCall c (openSessions s)) s)) ->
  preserves P (call E c).
Proof.
  intros Ht Ho s Hs. unfold call. destruct (throws E c); cbn.
  - apply Ht. exact Hs.
  - apply (Ho (set_trace (trace s ++ [c]) s)). apply Ht. exact Hs.
Qed.

Lemma preserves_forEach {A} (P : State -> Prop) (l : list A) g :
  (forall x, preserves P (g x)) -> preserves P (forEach l g).
Proof.
  intros Hg. induction l as [| x l IH].
  - apply preserves_ret.
  - cbn [forEach]. apply preserves_bind; [apply Hg | intros _; exact IH].
Qed.

Lemma preserves_whenSome {A} (P : State -> Prop) (o : option A) g :
  (forall x, preserves P (g x)) -> preserves P (whenSome o g).
Proof. intros Hg. destruct o; [apply Hg | apply preserves_ret]. Qed.

Lemma preserves_fresh (P : State -> Prop) :
  (forall v s, P s -> P (set_nextHandle v s)) -> preserves P fresh.
Proof. intros H s. apply H. Qed.

(** One syntax-directed step; [side] closes what is asked of a write. *)
Ltac preserves_step side :=
  lazymatch goal with
  | |- preserves _ (bind _ _) => apply preserves_bind; [| intros ?]
  | |- preserves _ (ret _) => apply preserves_ret
  | |- preserves _ (throw _) => apply preserves_throw
  | |- preserves _ (read _) => apply preserves_read
  | |- preserves _ (whenSome _ _) => apply preserves_whenSome; intros ?
  | |- preserves _ (forEach _ _) => apply preserves_forEach; intros ?
  | |- preserves _ (dispatch _) => apply preserves_dispatch
  | |- preserves _ (lift _) => apply preserves_lift
  | |- preserves _ (awaitOpened _ _) => apply preserves_awaitOpened
  | |- preserves _ (tryCatch _ _) => apply preserves_tryCatch; [| intros ?]
  | |- preserves _ (call _ _) =>
      apply preserves_call; [intros ? ? ?; side | intros ? ?; side]
  | |- preserves _ fresh => apply preserves_fresh; intros ? ? ?; side
  | |- preserves _ (write _) => apply preserves_write; intros ? ?; side
  | |- preserves _ (setLogs _) => apply preserves_write; intros ? ?; side
  | |- preserves _ (setLiveConnected _) =>
      apply preserves_write; intros ? ?; side
  | |- preserves _ (alert _) => apply preserves_write; intros ? ?; side
  | |- preserves _ (awaitDecode _ _) => unfold awaitDecode
  | |- preserves _ (onopen _) => unfold onopen
  | |- preserves _ (match ?x with _ => _ end) => destruct x
  end.

Ltac preserves_tac side := repeat preserves_step side.

Lemma keeps_of_preserves {A B} (f : State -> A) (m : M B) :
  (forall v, preserves (fun s => f s = v) m) -> keeps f m.
Proof. intros H s. apply (H (f s) s). reflexivity. Qed.

Ltac keeps_tac :=
  apply keeps_of_preserves; intros ?; preserves_tac ltac:(assumption).

(** *** The calls of a handler, in order *)

Lemma emits_ret E : emits E (ret tt) (fun _ => []).
Proof. intros s. cbn. rewrite app_nil_r. split; reflexivity. Qed.

Lemma emits_write E g :
  (forall s, trace (g s) = trace s) -> emits E (write g) (fun _ => []).
Proof. intros H s. cbn. rewrite app_nil_r, H. split; reflexivity. Qed.

Lemma emits_call E c : emits E (call E c) (fun _ => [c]).
Proof.
  intros s. unfold call. cbn. destruct (throws E c); split; reflexivity.
Qed.

Lemma emits_bind E (m1 m2 : M unit) c1 c2 :
  emits E m1 c1 -> emits E m2 c2 ->
  (forall s, c2 (snd (m1 s)) = c2 s) ->
  emits E (m1 ;; m2) (fun s => c1 s ++ c2 s).
Proof.
  intros H1 H2 Hframe s. unfold bind.
  destruct (H1 s) as [Ht1 Hr1]. specialize (Hframe s).
  rewrite untilThrow_app, firstThrow_app.
  destruct (m1 s) as [[[] | e] s1]; cbn in *.
  - destruct (firstThrow E (c1 s)) eqn:Hq; [discriminate |].
    destruct (H2 s1) as [Ht2 Hr2]. rewrite Hframe in Ht2, Hr2.
    rewrite (untilThrow_quiet _ _ Hq) in Ht1.
    rewrite Ht2, Ht1, <- app_assoc. split; [reflexivity | exact Hr2].
  - destruct (firstThrow E (c1 s)) eqn:Hq; [| discriminate].
    split; [exact Ht1 | exact Hr1].
Qed.

Lemma emits_ext E m c1 c2 :
  (forall s, c1 s = c2 s) -> emits E m c1 -> emits E m c2.
Proof. intros Heq H s. rewrite <- Heq. apply H. Qed.

Lemma emits_forEach E (f : Handle -> Call) l :
  emits E (forEach l (fun x => call E (f x))) (fun _ => map f l).
Proof.
  induction l as [| x l IH].
  - apply emits_ret.
  - cbn [forEach map].
    apply (@emits_bind E _ _ (fun _ => [f x]) (fun _ => map f l)).
    + apply emits_call.
    + exact IH.
    + reflexivity.
Qed.

Lemma emits_readSome E {A} (get : State -> option A) (body : A -> M unit)
    (cs : A -> list Call) :
  (forall a, emits E (body a) (fun _ => cs a)) ->
  emits E (o <- read get ;; whenSome o body)
    (fun s => match get s with Some a => cs a | None => [] end).
Proof.
  intros Hbody s. unfold bind, read. cbn.
  destruct (get s) as [a |]; cbn.
  - apply Hbody.
  - rewrite app_nil_r. split; reflexivity.
Qed.

Lemma emits_read E {A} (get : State -> A) (k : A -> M unit)
    (cs : A -> list Call) :
  (forall a, emits E (k a) (fun _ => cs a)) ->
  emits E (a <- read get ;; k a) (fun s => cs (get s)).
Proof. intros Hk s. unfold bind, read. cbn. apply Hk. Qed.

Lemma emits_release E (c : Call) g :
  (forall s, trace (g s) = trace s) ->
  emits E (call E c ;; write g) (fun _ => [c]).
Proof.
  intros Hg.
  apply (@emits_ext E _ (fun _ => [c] ++ [])); [reflexivity |].
  apply (@emits_bind E _ _ (fun _ => [c]) (fun _ => [])).
  - apply emits_call.
  - apply emits_write. exact Hg.
  - reflexivity.
Qed.


Ltac frame :=
  let s := fresh "s" in
  intros s; cbv beta;
  repeat match goal with
         | |- context [?f (snd (?m s))] =>
             let H := fresh "Hkeep" in
             assert (H : f (snd (m s)) = f s)
               by (refine ((_ : keeps f m) s); keeps_tac);
             rewrite H; clear H
         end;
  reflexivity.

Lemma stop_emits E : emits E (stopLiveSession E) teardownCalls.
Proof.
  apply (@emits_ext E _ (fun s =>
    option_list SessionClose (sessionRef s) ++
    match streamRef s with
    | Some m => map TrackStop (tracks m)
    | None => []
    end ++
    option_list NodeDisconnect (processorRef s) ++
    option_list NodeDisconnect (sourceRef s) ++
    option_list ContextClose (inputContextRef s) ++
    option_list ContextClose (outputContextRef s) ++
    map SourceStop (sourcesRef s) ++ [] ++ [] ++ [])).
  { intros s. unfold teardownCalls. rewrite !app_nil_r. reflexivity. }
  unfold stopLiveSession.
  apply emits_bind; [| | frame].
  { apply (emits_readSome E sessionRef _ (fun h => [SessionClose h])).
    intros h. apply emits_release. reflexivity. }
  apply emits_bind; [| | frame].
  { apply (emits_readSome E streamRef _ (fun m => map TrackStop (tracks m))).
    intros m.
    apply (@emits_ext E _ (fun _ => map TrackStop (tracks m) ++ []));
      [intros; apply app_nil_r |].
    apply (@emits_bind E _ _ (fun _ => map TrackStop (tracks m)) (fun _ => [])).
    + apply emits_forEach.
    + apply emits_write. reflexivity.
    + reflexivity. }
  apply emits_bind; [| | frame].
  { apply (emits_readSome E processorRef _ (fun h => [NodeDisconnect h])).
    intros h. apply emits_release. reflexivity. }
  apply emits_bind; [| | frame].
  { apply (emits_readSome E sourceRef _ (fun h => [NodeDisconnect h])).
    intros h. apply emits_release. reflexivity. }
  apply emits_bind; [| | frame].
  { apply (emits_readSome E inputContextRef _ (fun h => [ContextClose h])).
    intros h. apply emits_release. reflexivity. }
  apply emits_bind; [| | frame].
  { apply (emits_readSome E outputContextRef _ (fun h => [ContextClose h])).
    intros h. apply emits_release. reflexivity. }
  apply emits_bind; [| | frame].
  { apply (emits_read E sourcesRef _ (fun l => map SourceStop l)).
    intros l. apply emits_forEach. }
  apply emits_bind; [| | frame].
  { apply emits_write. reflexivity. }
  apply emits_bind; [| | frame].
  { apply emits_write. reflexivity. }
  apply emits_write. reflexivity.
Qed.

(** *** What a handler that returns has done *)

Lemma ensures_first (m1 m2 : M unit) (P : State -> Prop) :
  ensures m1 P -> preserves P m2 -> ensures (m1 ;; m2) P.
Proof.
  intros H1 H2 s. unfold bind. specialize (H1 s).
  destruct (m1 s) as [[[] | e] s1]; cbn in *.
  - intros _. apply H2. apply H1. reflexivity.
  - discriminate.
Qed.

Lemma ensures_later (m1 m2 : M unit) (P : State -> Prop) :
  ensures m2 P -> ensures (m1 ;; m2) P.
Proof.
  intros H2 s. unfold bind.
  destruct (m1 s) as [[[] | e] s1]; cbn.
  - apply H2.
  - discriminate.
Qed.

Lemma ensures_after {A} (m : M A) (k : A -> M unit) (P : State -> Prop) :
  (forall a, ensures (k a) P) -> ensures (bind m k) P.
Proof.
  intros Hk s. unfold bind.
  destruct (m s) as [[a | e] s1]; cbn.
  - apply Hk.
  - discriminate.
Qed.

Lemma ensures_clear {A} (get : State -> option A)
    (set : option A -> State -> State) (body : A -> M unit) :
  (forall s, get (set None s) = None) ->
  ensures (o <- read get ;; whenSome o (fun a => body a ;; write (set None)))
    (fun s => get s = None).
Proof.
  intros Hset s. unfold bind, read. cbn.
  destruct (get s) as [a |] eqn:Hget; cbn.
  - destruct (body a s) as [[[] | e] s1]; cbn.
    + intros _. apply Hset.
    + discriminate.
  - intros _. exact Hget.
Qed.


Lemma stop_releases E : ensures (stopLiveSession E) released.
Proof.
  assert (Hsess : ensures (stopLiveSession E) (fun s => sessionRef s = None)).
  { unfold stopLiveSession. apply ensures_first.
    - apply ensures_clear. reflexivity.
    - preserves_tac ltac:(assumption). }
  assert (Hstream : ensures (stopLiveSession E) (fun s => streamRef s = None)).
  { unfold stopLiveSession. apply ensures_later. apply ensures_first.
    - apply ensures_clear. reflexivity.
    - preserves_tac ltac:(assumption). }
  assert (Hproc : ensures (stopLiveSession E) (fun s => processorRef s = None)).
  { unfold stopLiveSession. do 2 apply ensures_later. apply ensures_first.
    - apply ensures_clear. reflexivity.
    - preserves_tac ltac:(assumption). }
  assert (Hsrc : ensures (stopLiveSession E) (fun s => sourceRef s = None)).
  { unfold stopLiveSession. do 3 apply ensures_later. apply ensures_first.
    - apply ensures_clear. reflexivity.
    - preserves_tac ltac:(assumption). }
  assert (Hin : ensures (stopLiveSession E) (fun s => inputContextRef s = None)).
  { unfold stopLiveSession. do 4 apply ensures_later. apply ensures_first.
    - apply ensures_clear. reflexivity.
    - preserves_tac ltac:(assumption). }
  assert (Hout : ensures (stopLiveSession E)
                   (fun s => outputContextRef s = None)).
  { unfold stopLiveSession. do 5 apply ensures_later. apply ensures_first.
    - apply ensures_clear. reflexivity.
    - preserves_tac ltac:(assumption). }
  assert (Hset : ensures (stopLiveSession E) (fun s => sourcesRef s = [])).
  { unfold stopLiveSession. do 7 apply ensures_later. apply ensures_first.
    - intros s _. reflexivity.
    - preserves_tac ltac:(assumption). }
  intros s Hok. unfold released, resources, noResources.
  rewrite (Hsess s Hok), (Hstream s Hok), (Hproc s Hok), (Hsrc s Hok),
    (Hin s Hok), (Hout s Hok), (Hset s Hok).
  split; reflexivity.
Qed.

Lemma stop_released E s :
  released s ->
  stopLiveSession E s
  = (Ok tt, set_logs (logs s ++ ["Session ended."%string])
              (set_liveConnected false s)).
Proof.
  unfold released, resources, noResources.
  destruct s as [se ic oc st pr sr nst srcs lc lg tr op al nh]; cbn.
  intros [Hres Hsrcs]. inversion Hres; subst. reflexivity.
Qed.

(** *** The kind of calls a handler makes *)

Lemma callsAll_silent {A} (P : Call -> Prop) (m : M A) :
  (forall s, trace (snd (m s)) = trace s) -> callsAll P m.
Proof.
  intros H s. exists []. rewrite app_nil_r. split; [apply H | constructor].
Qed.

Lemma callsAll_call (P : Call -> Prop) E c : P c -> callsAll P (call E c).
Proof.
  intros Hc s. exists [c]. split.
  - unfold call. destruct (throws E c); reflexivity.
  - constructor; [exact Hc | constructor].
Qed.

Lemma callsAll_bind {A B} (P : Call -> Prop) (m : M A) (k : A -> M B) :
  callsAll P m -> (forall a, callsAll P (k a)) -> callsAll P (bind m k).
Proof.
  intros Hm Hk s. unfold bind. destruct (Hm s) as (cs1 & Ht1 & Hp1).
  destruct (m s) as [[a | e] s1]; cbn in *.
  - destruct (Hk a s1) as (cs2 & Ht2 & Hp2).
    exists (cs1 ++ cs2). rewrite Ht2, Ht1, app_assoc. split; [reflexivity |].
    apply Forall_app. split; assumption.
  - exists cs1. split; assumption.
Qed.

Lemma callsAll_tryCatch {A} (P : Call -> Prop) (m : M A) h :
  callsAll P m -> (forall e, callsAll P (h e)) -> callsAll P (tryCatch m h).
Proof.
  intros Hm Hh s. unfold tryCatch. destruct (Hm s) as (cs1 & Ht1 & Hp1).
  destruct (m s) as [[a | e] s1]; cbn in *.
  - exists cs1. split; assumption.
  - destruct (Hh e s1) as (cs2 & Ht2 & Hp2).
    exists (cs1 ++ cs2). rewrite Ht2, Ht1, app_assoc. split; [reflexivity |].
    apply Forall_app. split; assumption.
Qed.

Lemma callsAll_dispatch (P : Call -> Prop) m :
  callsAll P m -> callsAll P (dispatch m).
Proof. intros Hm s. apply Hm. Qed.

Lemma callsAll_awaitOpened (P : Call -> Prop) m k :
  callsAll P m -> callsAll P k -> callsAll P (awaitOpened m k).
Proof.
  intros Hm Hk s. unfold awaitOpened. destruct (Hm s) as (cs1 & Ht1 & Hp1).
  destruct (m s) as [[a | e] s1]; cbn in *.
  - destruct (Hk s1) as (cs2 & Ht2 & Hp2).
    exists (cs1 ++ cs2). rewrite Ht2, Ht1, app_assoc. split; [reflexivity |].
    apply Forall_app. split; assumption.
  - exists cs1. split; assumption.
Qed.

Lemma callsAll_forEach {A} (P : Call -> Prop) (l : list A) g :
  (forall x, callsAll P (g x)) -> callsAll P (forEach l g).
Proof.
  intros Hg. induction l as [| x l IH].
  - apply callsAll_silent. reflexivity.
  - cbn [forEach]. apply callsAll_bind; [apply Hg | intros _; exact IH].
Qed.

Lemma callsAll_whenSome {A} (P : Call -> Prop) (o : option A) g :
  (forall x, callsAll P (g x)) -> callsAll P (whenSome o g).
Proof.
  intros Hg. destruct o; [apply Hg | apply callsAll_silent; reflexivity].
Qed.

Ltac callsAll_step side :=
  lazymatch goal with
  | |- callsAll _ (bind _ _) => apply callsAll_bind; [| intros ?]
  | |- callsAll _ (whenSome _ _) => apply callsAll_whenSome; intros ?
  | |- callsAll _ (forEach _ _) => apply callsAll_forEach; intros ?
  | |- callsAll _ (dispatch _) => apply callsAll_dispatch
  | |- callsAll _ (awaitOpened _ _) => apply callsAll_awaitOpened
  | |- callsAll _ (tryCatch _ _) => apply callsAll_tryCatch; [| intros ?]
  | |- callsAll _ (call _ _) => apply callsAll_call; side
  | |- callsAll _ (awaitDecode _ _) => unfold awaitDecode
  | |- callsAll _ (onopen _) => unfold onopen
  | |- callsAll _ (match ?x with _ => _ end) => destruct x
  | |- callsAll _ _ => apply callsAll_silent; intros ?; reflexivity
  end.

Ltac callsAll_tac side := repeat callsAll_step side.

Lemma callsAll_callsOf {A} (P : Call -> Prop) (m : M A) s :
  callsAll P m -> Forall P (callsOf m s).
Proof.
  intros H. destruct (H s) as (cs & Ht & Hp).
  rewrite (callsOf_app m s cs Ht). exact Hp.
Qed.

(** What the first line of [onmessage] has read when the message carries
    a payload. *)
Lemma audioPayload_read msg b64 :
  audioPayload msg = Some b64 ->
  exists value, base64Audio msg = Ok value /\ truthyString value = Some b64.
Proof.
  unfold audioPayload. destruct (base64Audio msg) as [value | e].
  - intros H. exists value. split; [reflexivity | exact H].
  - discriminate.
Qed.

Lemma onmessage_ignored E node t msg s value :
  base64Audio msg = Ok value ->
  truthyString value = None ->
  isInterrupted msg = false ->
  onmessage E node t msg s = (Ok tt, s).
Proof.
  intros Hread Haudio Hint. unfold onmessage, bind, lift, read. cbn.
  rewrite Hread, Haudio, Hint. reflexivity.
Qed.

Lemma onmessage_unread E node t msg s e :
  base64Audio msg = Throw e -> onmessage E node t msg s = (Throw e, s).
Proof.
  intros Hread. unfold onmessage, bind, lift. rewrite Hread. reflexivity.
Qed.

Lemma onmessage_audio E node t msg s ctx b64 bytes :
  outputContextRef s = Some ctx ->
  audioPayload msg = Some b64 ->
  decode E b64 = Some bytes ->
  isInterrupted msg = false ->
  (forall c, throws E c = None) ->
  let buffer := decodeAudioData bytes 24000 1 in
  let start := Qmax (nextStartTimeRef s) t in
  let s' := snd (onmessage E node t msg s) in
  fst (onmessage E node t msg s) = Ok tt /\
  trace s' = trace s ++ [CreateBufferSource ctx (nextHandle s);
                         ConnectNode (nextHandle s) node;
                         SourceStart (nextHandle s) buffer start] /\
  nextStartTimeRef s' = start + duration buffer /\
  sourcesRef s' = setAdd (nextHandle s) (sourcesRef s) /\
  outputContextRef s' = Some ctx.
Proof.
  intros Hctx Hpayload Hdec Hint Hquiet.
  destruct (audioPayload_read msg b64 Hpayload) as (value & Hread & Haudio).
  unfold onmessage, bind, lift, read, write, awaitDecode, fresh, call, ret.
  cbn. rewrite Hread. cbn.
  rewrite Hctx, Haudio, Hint. cbn. rewrite Hdec. cbn.
  rewrite !Hquiet. cbn. rewrite Hctx, <- !app_assoc. cbn.
  repeat split; reflexivity.
Qed.

Lemma duration_nonneg (b : AudioBuffer) : 0 <= duration b.
Proof.
  unfold duration, frameCount, Qle. cbn. rewrite Z.mul_1_r.
  apply Z.div_pos; lia.
Qed.

Lemma scheduleSpec_from (n : Q) (arrivals : list (Q * AudioBuffer)) :
  backToBack (fst (scheduleSpec n arrivals)) /\
  match fst (scheduleSpec n arrivals) with
  | (t1, _) :: _ => n <= t1
  | [] => True
  end.
Proof.
  revert n. induction arrivals as [| [t b] rest IH]; intros n.
  - split; exact I.
  - cbn [scheduleSpec].
    specialize (IH (Qmax n t + duration b)).
    destruct (scheduleSpec (Qmax n t + duration b) rest) as [plan cursor].
    cbn [fst] in *. destruct IH as [Hplan Hhead]. split.
    + destruct plan as [| [t2 b2] plan]; [exact I |].
      pose proof (duration_nonneg b) as Hd.
      cbn [backToBack]. repeat split; [lra | exact Hhead | exact Hplan].
    + apply Q.le_max_l.
Qed.

Lemma scheduled_app a b : scheduled (a ++ b) = scheduled a ++ scheduled b.
Proof.
  induction a as [| c a IH]; [reflexivity |].
  destruct c; cbn; rewrite ?IH; reflexivity.
Qed.





Lemma deliver_cons E node t msg rest s :
  snd (deliver E node ((t, msg) :: rest) s)
  = snd (deliver E node rest (snd (onmessage E node t msg s))).
Proof.
  cbn [deliver]. unfold bind, dispatch. cbn.
  destruct (deliver E node rest (snd (onmessage E node t msg s)))
    as [[[] | e] s1]; reflexivity.
Qed.

Lemma deliver_audio E node msgs buffers :
  (forall c, throws E c = None) ->
  Forall2 (audioChunk E) msgs buffers ->
  forall s ctx,
    outputContextRef s = Some ctx ->
    exists cs,
      trace (snd (deliver E node msgs s)) = trace s ++ cs /\
      scheduled cs
      = fst (scheduleSpec (nextStartTimeRef s)
               (combine (map fst msgs) buffers)) /\
      nextStartTimeRef (snd (deliver E node msgs s))
      = snd (scheduleSpec (nextStartTimeRef s)
               (combine (map fst msgs) buffers)).
Proof.
  intros Hquiet Hall.
  induction Hall as [| [t msg] buffer msgs buffers [Haudio Hint] _ IH];
    intros s ctx Hctx.
  - exists []. cbn. rewrite app_nil_r. repeat split.
  - cbn [snd] in Haudio, Hint. unfold audioOf in Haudio.
    destruct (audioPayload msg) as [b64 |] eqn:Hb64; [| discriminate].
    destruct (decode E b64) as [bytes |] eqn:Hdec; [| discriminate].
    injection Haudio as <-.
    destruct (onmessage_audio E node t msg s ctx b64 bytes Hctx Hb64 Hdec Hint
                Hquiet)
      as (_ & Htrace & Hnext & _ & Hctx').
    destruct (IH _ _ Hctx') as (cs & Hcs & Hplan & Hcursor).
    rewrite deliver_cons.
    eexists. rewrite Hcs, Htrace, <- app_assoc. split; [reflexivity |].
    cbn [map fst combine scheduleSpec].
    rewrite Hnext in Hplan, Hcursor.
    destruct (scheduleSpec
                (Qmax (nextStartTimeRef s) t
                 + duration (decodeAudioData bytes 24000 1))
                (combine (map fst msgs) buffers)) as [plan cursor].
    cbn [fst snd] in *. rewrite scheduled_app, Hplan. split; [| exact Hcursor].
    reflexivity.
Qed.

Lemma bind_ok {A B} (m : M A) (k : A -> M B) s b :
  fst (bind m k s) = Ok b ->
  exists a, fst (m s) = Ok a /\ bind m k s = k a (snd (m s)).
Proof.
  unfold bind. destruct (m s) as [[a | e] s1]; cbn.
  - intros _. exists a. split; reflexivity.
  - discriminate.
Qed.

Lemma emits_ok E m cs s :
  emits E m cs -> fst (m s) = Ok tt ->
  trace (snd (m s)) = trace s ++ cs s.
Proof.
  intros H Hok. destruct (H s) as [Ht Hr]. rewrite Hok in Hr.
  destruct (firstThrow E (cs s)) eqn:Hq; [discriminate |].
  rewrite (untilThrow_quiet _ _ Hq) in Ht. exact Ht.
Qed.

(** The branch taken when [interrupted] is set. *)
Lemma interrupted_emits E :
  emits E
    (setLogs (fun prev => prev ++ ["Interrupted."%string]) ;;
     (sources <- read sourcesRef ;;
      forEach sources (fun n => call E (SourceStop n))) ;;
     write (set_sourcesRef []) ;;
     write (set_nextStartTimeRef 0))
    (fun s => map SourceStop (sourcesRef s)).
Proof.
  apply (@emits_ext E _ (fun s => [] ++ map SourceStop (sourcesRef s) ++ [] ++ [])).
  { intros s. cbn. rewrite app_nil_r. reflexivity. }
  apply emits_bind; [| | frame].
  { apply emits_write. reflexivity. }
  apply emits_bind; [| | frame].
  { apply (emits_read E sourcesRef _ (fun l => map SourceStop l)).
    intros l. apply emits_forEach. }
  apply emits_bind; [| | frame].
  { apply emits_write. reflexivity. }
  apply emits_write. reflexivity.
Qed.

Lemma setAdd_incl x l : incl l (setAdd x l).
Proof.
  unfold setAdd. destruct (in_dec Nat.eq_dec x l).
  - apply incl_refl.
  - apply incl_appl, incl_refl.
Qed.

Lemma interruption_clears E node t msg :
  isInterrupted msg = true ->
  ensures (onmessage E node t msg)
    (fun s => sourcesRef s = [] /\ nextStartTimeRef s = 0).
Proof.
  intros Hint.
  assert (Hset : ensures (onmessage E node t msg)
                   (fun s => sourcesRef s = [])).
  { unfold onmessage. rewrite Hint. apply ensures_after. intros value.
    do 3 apply ensures_later.
    apply ensures_first.
    - intros s _. reflexivity.
    - preserves_tac ltac:(assumption). }
  assert (Hnst : ensures (onmessage E node t msg)
                   (fun s => nextStartTimeRef s = 0)).
  { unfold onmessage. rewrite Hint. apply ensures_after. intros value.
    do 4 apply ensures_later.
    intros s _. reflexivity. }
  intros s Hok. split; [apply Hset | apply Hnst]; exact Hok.
Qed.

(** *** One session at a time *)

Lemma call_eq E c s :
  call E c s =
  match throws E c with
  | Some e => (Throw e, set_trace (trace s ++ [c]) s)
  | None =>
      (Ok tt,
       set_openSessions (afterCall c (openSessions s))
         (set_trace (trace s ++ [c]) s))
  end.
Proof. reflexivity. Qed.

Ltac oracle E :=
  repeat (cbn;
    match goal with
    | |- context [call E ?c ?s] =>
        let H := fresh "Hthrows" in
        rewrite (call_eq E c s); destruct (throws E c) eqn:H
    end).

Lemma bind_cases {A B} (m : M A) (k : A -> M B) s (Q : State -> Prop) :
  (forall e s1, m s = (Throw e, s1) -> Q s1) ->
  (forall a s1, m s = (Ok a, s1) -> Q (snd (k a s1))) ->
  Q (snd (bind m k s)).
Proof.
  intros Hthrow Hok. unfold bind.
  destruct (m s) as [[a | e] s1].
  - apply (Hok a s1). reflexivity.
  - apply (Hthrow e s1). reflexivity.
Qed.

Lemma onopen_keeps_sessions E : keeps openSessions (onopen E).
Proof. unfold onopen. keeps_tac. Qed.

Lemma onopen_connected E s : liveConnected (snd (onopen E s)) = true.
Proof.
  unfold onopen. apply bind_cases; [discriminate |].
  intros [] s1 _. apply bind_cases; [discriminate |].
  intros [] s2 Hset. injection Hset as <-.
  match goal with
  | |- liveConnected (snd (?m ?s0)) = true =>
      assert (Hp : preserves (fun s => liveConnected s = true) m)
        by preserves_tac ltac:(assumption);
      apply (Hp s0)
  end.
  reflexivity.
Qed.

Arguments onopen : simpl never.

Lemma start_oneSession E s :
  (forall s0, fst (onopen E s0) = Ok tt) ->
  openSessions s = [] -> oneSession (snd (startLiveSession E s)).
Proof.
  intros Hopens.
  destruct s as [se ic oc st pr sr nst srcs lc lg tr op al nh]. cbn.
  intros ->.
  unfold startLiveSession, tryCatch, bind, awaitOpened, read,
    write, fresh, ret, setLogs, setLiveConnected, alert.
  oracle E; cbn.
  all: try (left; reflexivity).
  match goal with
  | |- context [onopen E ?s0] =>
      pose proof (Hopens s0) as Hok;
      pose proof (onopen_keeps_sessions E s0) as Hsessions;
      pose proof (onopen_connected E s0) as Hlive;
      destruct (onopen E s0) as [[[] | e] s1]
  end; cbn in Hok, Hsessions, Hlive; [| discriminate Hok].
  cbn. right. eexists. destruct s1. cbn in *. subst. repeat split.
Qed.

Ltac closed_side :=
  first [ assumption
        | match goal with
          | H : openSessions _ = [] |- _ => cbn in *; rewrite H; reflexivity
          end ].

Lemma stop_keeps_closed E :
  preserves (fun s => openSessions s = []) (stopLiveSession E).
Proof. unfold stopLiveSession. preserves_tac closed_side. Qed.

Lemma stop_oneSession E s :
  oneSession s -> oneSession (snd (stopLiveSession E s)).
Proof.
  intros [Hclosed | (h & Hopen & Hsess & Hlive)].
  - left. apply stop_keeps_closed. exact Hclosed.
  - destruct s as [se ic oc st pr sr nst srcs lc lg tr op al nh].
    cbn in Hopen, Hsess, Hlive. subst.
    unfold stopLiveSession. apply bind_cases.
    + intros e s1 Heq. unfold bind, read, whenSome, write in Heq.
      cbn in Heq. rewrite call_eq in Heq.
      destruct (throws E (SessionClose h)); cbn in Heq; [| discriminate].
      injection Heq as _ <-. right. exists h. repeat split.
    + intros [] s1 Heq. unfold bind, read, whenSome, write in Heq.
      cbn in Heq. rewrite call_eq in Heq.
      destruct (throws E (SessionClose h)); cbn in Heq; [discriminate |].
      injection Heq as <-. left. cbv beta.
      match goal with
      | |- openSessions (snd (?m ?s0)) = [] =>
          assert (Hp : preserves (fun s => openSessions s = []) m)
            by preserves_tac closed_side;
          apply (Hp s0)
      end.
      cbn. destruct (Nat.eq_dec h h); [reflexivity | contradiction].
Qed.

Lemma click_oneSession E s :
  (forall s0, fst (onopen E s0) = Ok tt) ->
  oneSession s -> oneSession (snd (click E s)).
Proof.
  intros Hopens Hs. unfold click, bind, read, dispatch, offered. cbn.
  destruct (liveConnected s) eqn:Hlive; cbn.
  - apply stop_oneSession. exact Hs.
  - apply start_oneSession; [exact Hopens |].
    destruct Hs as [Hclosed | (h & _ & _ & Htrue)]; [exact Hclosed |].
    congruence.
Qed.

Lemma clicks_oneSession E n :
  (forall s0, fst (onopen E s0) = Ok tt) ->
  forall s, oneSession s -> oneSession (snd (clicks E n s)).
Proof.
  intros Hopens.
  induction n as [| n IH]; intros s Hs; [exact Hs |].
  cbn [clicks]. unfold bind.
  pose proof (click_oneSession E s Hopens Hs) as Hstep.
  destruct (click E s) as [[[] | e] s1] eqn:Hclick; cbn in *.
  - apply IH. exact Hstep.
  - exact Hstep.
Qed.

Lemma oneSession_length s :
  oneSession s -> (List.length (openSessions s) <= 1)%nat.
Proof.
  intros [-> | (h & -> & _)]; cbn; lia.
Qed.

(* ===================================================================== *)
(** ** The claims about the live session                                  *)
(* ===================================================================== *)

(** C1: audio buffers delivered in order to an open session are scheduled
    as the spec's scheduler does it: each starts at
    [max(nextStartTime, clock)] and moves the cursor on by its duration; so
    the start times do not decrease and no buffer starts before its
    predecessor has played out. *)
Theorem scheduler_back_to_back E node msgs buffers s ctx :
  outputContextRef s = Some ctx ->
  (forall c, throws E c = None) ->
  Forall2 (audioChunk E) msgs buffers ->
  let plan := scheduleSpec (nextStartTimeRef s)
                (combine (map fst msgs) buffers) in
  scheduled (callsOf (deliver E node msgs) s) = fst plan /\
  nextStartTimeRef (snd (deliver E node msgs s)) = snd plan /\
  backToBack (fst plan).
Proof.
  intros Hctx Hquiet Hall plan.
  destruct (deliver_audio E node msgs buffers Hquiet Hall s ctx Hctx)
    as (cs & Hcs & Hplan & Hcur).
  rewrite (callsOf_app _ s cs Hcs).
  repeat split; [exact Hplan | exact Hcur |].
  apply scheduleSpec_from.
Qed.

Lemma scheduler_back_to_back_witness :
  outputContextRef connected = Some 1%nat /\
  (forall c, throws quiet c = None) /\
  Forall2 (audioChunk quiet) sampleArrivals sampleBuffers /\
  scheduled (callsOf (deliver quiet 2%nat sampleArrivals) connected)
  = fst (scheduleSpec (nextStartTimeRef connected)
           (combine (map fst sampleArrivals) sampleBuffers)) /\
  backToBack
    (fst (scheduleSpec (nextStartTimeRef connected)
            (combine (map fst sampleArrivals) sampleBuffers))).
Proof.
  assert (Hctx : outputContextRef connected = Some 1%nat)
    by (vm_compute; reflexivity).
  assert (Hquiet : forall c, throws quiet c = None) by reflexivity.
  assert (Hall : Forall2 (audioChunk quiet) sampleArrivals sampleBuffers).
  { repeat constructor. }
  destruct (scheduler_back_to_back quiet 2%nat sampleArrivals sampleBuffers
              connected 1%nat Hctx Hquiet Hall) as (Hplan & _ & Horder).
  split; [exact Hctx |]. split; [exact Hquiet |]. split; [exact Hall |].
  split; [exact Hplan | exact Horder].
Defined.

(** C2 as stated is false: after an interruption handled while the clock
    reads 5, the cursor is 0, not 5. *)
Lemma interruption_cursor_is_not_clock :
  ~ (forall E node t msg s,
       isInterrupted msg = true ->
       fst (onmessage E node t msg s) = Ok tt ->
       nextStartTimeRef (snd (onmessage E node t msg s)) == t).
Proof.
  intros H.
  assert (Hok : fst (onmessage quiet 2%nat 5 interruption playing) = Ok tt)
    by (vm_compute; reflexivity).
  specialize (H quiet 2%nat 5 interruption playing eq_refl Hok).
  vm_compute in H. discriminate H.
Qed.

(** C2, amended: once an interruption has been handled, every buffer that
    was active has been stopped, the active set is empty and the cursor is
    0; the next buffer, delivered when the clock reads [t'] not before the
    interruption time [t], starts at [max(0, t')], which is not before
    [t]. *)
Theorem interruption_flushes E node t msg s :
  isInterrupted msg = true ->
  fst (onmessage E node t msg s) = Ok tt ->
  let s' := snd (onmessage E node t msg s) in
  (forall n, In n (sourcesRef s) ->
     In (SourceStop n) (callsOf (onmessage E node t msg) s)) /\
  sourcesRef s' = [] /\
  nextStartTimeRef s' = 0 /\
  forall E' node' t' msg' ctx b64 bytes,
    outputContextRef s' = Some ctx ->
    audioPayload msg' = Some b64 ->
    decode E' b64 = Some bytes ->
    isInterrupted msg' = false ->
    (forall c, throws E' c = None) ->
    t <= t' ->
    scheduled (callsOf (onmessage E' node' t' msg') s')
    = [(Qmax 0 t', decodeAudioData bytes 24000 1)] /\
    t <= Qmax 0 t'.
Proof.
  intros Hint Hok s'.
  destruct (interruption_clears E node t msg Hint s Hok) as [Hset Hnst].
  fold s' in Hset, Hnst.
  split; [| split; [exact Hset | split; [exact Hnst |]]].
  - intros n Hn. subst s'. unfold callsOf. unfold onmessage in *.
    rewrite Hint in *.
    destruct (bind_ok _ _ _ _ Hok) as (value & _ & Hread).
    rewrite Hread in *. change (snd (lift (base64Audio msg) s)) with s in *.
    destruct (bind_ok _ _ _ _ Hok) as ([] & Hok1 & Heq).
    rewrite Heq in Hok.
    pose proof (emits_ok E _ _ _ (interrupted_emits E) Hok) as Htail.
    match type of Hok1 with
    | fst (?m1 s) = _ =>
        assert (Hcalls : callsAll (fun _ => True) m1)
          by (callsAll_tac ltac:(exact I));
        assert (Hincl : preserves
                          (fun s' => incl (sourcesRef s) (sourcesRef s')) m1)
          by (preserves_tac ltac:(first [assumption
                                        | cbn; eapply incl_tran;
                                          [eassumption | apply setAdd_incl]]));
        destruct (Hcalls s) as (cs1 & Hcs1 & _);
        specialize (Hincl s (incl_refl _))
    end.
    rewrite Heq, Htail, Hcs1, <- app_assoc, skipn_app_length.
    apply in_or_app. right. apply in_map. apply Hincl. exact Hn.
  - intros E' node' t' msg' ctx b64 bytes Hctx Hb64 Hdec Hint' Hquiet Hle.
    destruct (onmessage_audio E' node' t' msg' s' ctx b64 bytes Hctx Hb64 Hdec
                Hint' Hquiet) as (_ & Htrace & _).
    rewrite (callsOf_app _ s' _ Htrace), Hnst. split; [reflexivity |].
    apply Qle_trans with t'; [exact Hle | apply Q.le_max_r].
Qed.

Lemma interruption_flushes_witness :
  isInterrupted interruption = true /\
  fst (onmessage quiet 2%nat 5 interruption playing) = Ok tt /\
  In (SourceStop 8%nat) (callsOf (onmessage quiet 2%nat 5 interruption) playing) /\
  sourcesRef (snd (onmessage quiet 2%nat 5 interruption playing)) = [] /\
  nextStartTimeRef (snd (onmessage quiet 2%nat 5 interruption playing)) = 0 /\
  5 <= Qmax 0 6.
Proof.
  assert (Hok : fst (onmessage quiet 2%nat 5 interruption playing) = Ok tt)
    by (vm_compute; reflexivity).
  assert (Hctx : outputContextRef
                   (snd (onmessage quiet 2%nat 5 interruption playing))
                 = Some 1%nat)
    by (vm_compute; reflexivity).
  assert (Hin : In 8%nat (sourcesRef playing))
    by (vm_compute; left; reflexivity).
  assert (Hle : 5 <= 6) by (unfold Qle; simpl; lia).
  destruct (interruption_flushes quiet 2%nat 5 interruption playing
              eq_refl Hok) as (Hstop & Hset & Hnst & Hnext).
  split; [reflexivity |]. split; [exact Hok |].
  split; [apply Hstop; exact Hin |].
  split; [exact Hset |]. split; [exact Hnst |].
  exact (proj2 (Hnext quiet 2%nat 6 (audioMessage "abcd") 1%nat "abcd"%string
                  (map (fun a => byte.of_Z (Z.of_nat (Ascii.nat_of_ascii a)))
                     (list_ascii_of_string "abcd"))
                  Hctx eq_refl eq_refl eq_refl (fun _ => eq_refl) Hle)).
Defined.

(** C3 as stated is false: when closing the transport throws, the steps
    after it are not taken; the track of the capture stream is not
    stopped. *)
Lemma stop_skips_steps_after_throw :
  ~ (forall E s c,
       In c (teardownCalls s) -> In c (callsOf (stopLiveSession E) s)).
Proof.
  intros H.
  specialize (H closeFails connected (TrackStop 4%nat)).
  vm_compute in H.
  destruct H as [H | H]; [right; left; reflexivity | discriminate H | exact H].
Qed.

(** C3, amended: the teardown makes its release calls in the order
    transport, capture tracks, processing nodes, input context, output
    context, scheduled buffers; it takes all of them when none throws, and
    it ends with the first that throws, whose exception it passes on: the
    steps after that one are not taken. *)
Theorem stop_order_until_throw E s :
  callsOf (stopLiveSession E) s = untilThrow E (teardownCalls s) /\
  fst (stopLiveSession E s) = outcome (firstThrow E (teardownCalls s)).
Proof.
  destruct (stop_emits E s) as [Htrace Hresult].
  split; [| exact Hresult].
  apply callsOf_app. exact Htrace.
Qed.

(** C4 fails on the code. A refused microphone leaves both audio contexts
    in their refs, never closed; a rejected connection leaves the capture
    stream as well. The start is reported once and the session is not
    opened. *)
Theorem failed_start_keeps_resources :
  let denied := snd (startLiveSession micDenied mounted) in
  let rejected := snd (startLiveSession transportRejected mounted) in
  (fst (startLiveSession micDenied mounted) = Ok tt /\
   liveConnected denied = false /\
   sessionRef denied = None /\
   openSessions denied = [] /\
   alerts denied = ["Failed to start live session: Permission denied"%string] /\
   inputContextRef denied = Some 0%nat /\
   outputContextRef denied = Some 1%nat /\
   existsb isRelease (trace denied) = false) /\
  (fst (startLiveSession transportRejected mounted) = Ok tt /\
   liveConnected rejected = false /\
   sessionRef rejected = None /\
   openSessions rejected = [] /\
   alerts rejected
   = ["Failed to start live session: Connection refused"%string] /\
   inputContextRef rejected = Some 0%nat /\
   outputContextRef rejected = Some 1%nat /\
   streamRef rejected = Some {| streamId := 3%nat; tracks := [4%nat] |} /\
   existsb isRelease (trace rejected) = false).
Proof. vm_compute. repeat split. Qed.

(** C5: a stop from a state in which everything is released raises no
    error, makes no call and leaves the handles, the active set and the
    cursor as they are; and a stop that returns leaves such a state. So a
    second stop after a first changes no resource. *)
Theorem stop_idempotent E :
  (forall s, released s ->
     fst (stopLiveSession E s) = Ok tt /\
     released (snd (stopLiveSession E s)) /\
     resources (snd (stopLiveSession E s)) = resources s /\
     playback (snd (stopLiveSession E s)) = playback s /\
     callsOf (stopLiveSession E) s = []) /\
  (forall E1 s, fst (stopLiveSession E1 s) = Ok tt ->
     released (snd (stopLiveSession E1 s))).
Proof.
  split.
  - intros s Hs. unfold callsOf. rewrite (stop_released E s Hs). cbn.
    repeat split; try apply Hs.
    rewrite <- (app_nil_r (trace s)) at 2. apply skipn_app_length.
  - intros E1 s. apply stop_releases.
Qed.

Lemma stop_idempotent_witness :
  fst (stopLiveSession quiet playing) = Ok tt /\
  released (snd (stopLiveSession quiet playing)) /\
  fst (stopLiveSession closeFails (snd (stopLiveSession quiet playing)))
  = Ok tt /\
  resources (snd (stopLiveSession closeFails
                    (snd (stopLiveSession quiet playing))))
  = resources (snd (stopLiveSession quiet playing)).
Proof.
  assert (Hfirst : fst (stopLiveSession quiet playing) = Ok tt)
    by (vm_compute; reflexivity).
  pose proof (proj2 (stop_idempotent closeFails) quiet playing Hfirst)
    as Hreleased.
  destruct (proj1 (stop_idempotent closeFails)
              (snd (stopLiveSession quiet playing)) Hreleased)
    as (Hok & _ & Hres & _).
  split; [exact Hfirst |]. split; [exact Hreleased |].
  split; [exact Hok | exact Hres].
Defined.

(** C8 as stated is false: a start over an open session does not close it
    and leaves two sessions open. *)
Lemma start_over_open_session :
  ~ (forall E s h,
       sessionRef s = Some h ->
       In h (openSessions s) ->
       In (SessionClose h) (callsOf (startLiveSession E) s) /\
       (List.length (openSessions (snd (startLiveSession E s))) <= 1)%nat).
Proof.
  intros H.
  assert (Href : sessionRef connected = Some 5%nat)
    by (vm_compute; reflexivity).
  assert (Hopen : In 5%nat (openSessions connected))
    by (vm_compute; left; reflexivity).
  destruct (H quiet connected 5%nat Href Hopen) as [_ Hlen].
  vm_compute in Hlen. lia.
Qed.

(** C8, amended: the start path has no stop-before-start, it makes no
    release call at all. What keeps sessions apart is the button: a click
    runs the start only while [liveConnected] is false and the stop
    otherwise; and along any number of clicks on a freshly mounted
    component, each handler run to its end, at most one session is open as
    long as [onopen] does not throw (a session whose [onopen] throws never
    reaches [sessionRef]). *)
Theorem start_never_tears_down :
  (forall E s,
     Forall (fun c => isRelease c = false) (callsOf (startLiveSession E) s)) /\
  (forall E s,
     click E s
     = dispatch (if liveConnected s then stopLiveSession E
                 else startLiveSession E) s) /\
  (forall E n,
     (forall s, fst (onopen E s) = Ok tt) ->
     (List.length (openSessions (snd (clicks E n mounted))) <= 1)%nat).
Proof.
  split; [| split].
  - intros E s. apply callsAll_callsOf. unfold startLiveSession.
    callsAll_tac ltac:(reflexivity).
  - intros E s. unfold click, bind, read, offered. cbn.
    destruct (liveConnected s); reflexivity.
  - intros E n Hopens. apply oneSession_length, clicks_oneSession.
    + exact Hopens.
    + left. reflexivity.
Qed.

Lemma start_never_tears_down_witness :
  (forall s, fst (onopen closeFails s) = Ok tt) /\
  (List.length (openSessions (snd (clicks closeFails 3 mounted))) <= 1)%nat.
Proof.
  assert (Hopens : forall s, fst (onopen closeFails s) = Ok tt).
  { intros s.
    unfold onopen, bind, read, write, setLogs, setLiveConnected, fresh, call.
    cbn. destruct (inputContextRef s), (streamRef s); reflexivity. }
  split; [exact Hopens |].
  exact (proj2 (proj2 start_never_tears_down) closeFails 3%nat Hopens).
Defined.

(** C9: handling a message that carries the interruption flag leaves the
    session handle, the stream, the processing nodes and both contexts as
    they are, closes no session and does not change [liveConnected]; the
    only calls it makes are on scheduled playback. *)
Theorem interruption_frame E node t msg s :
  isInterrupted msg = true ->
  let s' := snd (onmessage E node t msg s) in
  resources s' = resources s /\
  liveConnected s' = liveConnected s /\
  openSessions s' = openSessions s /\
  Forall (fun c => playbackCall c = true) (callsOf (onmessage E node t msg) s).
Proof.
  intros _ s'. subst s'. repeat split.
  - assert (H : keeps resources (onmessage E node t msg))
      by (unfold onmessage; keeps_tac).
    apply H.
  - assert (H : keeps liveConnected (onmessage E node t msg))
      by (unfold onmessage; keeps_tac).
    apply H.
  - assert (H : keeps openSessions (onmessage E node t msg)).
    { unfold onmessage. apply keeps_of_preserves. intros v.
      preserves_tac ltac:(first [assumption | cbn; assumption]). }
    apply H.
  - apply callsAll_callsOf. unfold onmessage.
    callsAll_tac ltac:(reflexivity).
Qed.

Lemma interruption_frame_witness :
  isInterrupted interruption = true /\
  resources (snd (onmessage quiet 2%nat 5 interruption playing))
  = resources playing /\
  liveConnected (snd (onmessage quiet 2%nat 5 interruption playing)) = true.
Proof.
  destruct (interruption_frame quiet 2%nat 5 interruption playing eq_refl)
    as (Hres & Hlive & _).
  split; [reflexivity |]. split; [exact Hres |].
  rewrite Hlive. vm_compute. reflexivity.
Defined.

(** C10 fails on the code. A model turn without [parts] carries neither
    audio nor the interruption flag, yet the handler does not return: the
    read of [parts[0]] in its first line throws. The state is as before. *)
Theorem partless_turn_throws E node t s :
  audioPayload partlessTurn = None /\
  isInterrupted partlessTurn = false /\
  onmessage E node t partlessTurn s
  = (Throw "Cannot read properties of undefined (reading '0')", s).
Proof.
  split; [reflexivity |]. split; [reflexivity |].
  apply onmessage_unread. reflexivity.
Qed.

(* ===================================================================== *)
(** ** More about the message handler                                     *)
(* ===================================================================== *)

Ltac evaluate := vm_compute; reflexivity.

Lemma quiet_firstThrow E cs :
  (forall c, throws E c = None) -> firstThrow E cs = None.
Proof.
  intros Hquiet. induction cs as [| c cs IH]; [reflexivity |].
  cbn. rewrite Hquiet. exact IH.
Qed.

(** Audio that arrives while there is no output context (before a start or
    after a stop) is dropped: nothing is scheduled and nothing changes. The
    handler returns for every message whose first line can be read, audio
    or not. *)
Theorem audio_without_context_dropped E node t msg s :
  outputContextRef s = None ->
  isInterrupted msg = false ->
  onmessage E node t msg s
  = (match base64Audio msg with
     | Ok _ => Ok tt
     | Throw e => Throw e
     end, s).
Proof.
  intros Hctx Hint. unfold onmessage, bind, lift, read.
  destruct (base64Audio msg) as [value | e]; [| reflexivity].
  cbn. rewrite Hctx, Hint.
  destruct (truthyString value); reflexivity.
Qed.

Lemma audio_without_context_dropped_witness :
  outputContextRef mounted = None /\
  isInterrupted (audioMessage "abcd") = false /\
  onmessage quiet 2%nat 1 (audioMessage "abcd") mounted = (Ok tt, mounted).
Proof.
  split; [reflexivity |]. split; [reflexivity |].
  apply (audio_without_context_dropped quiet 2%nat 1 (audioMessage "abcd")
           mounted eq_refl eq_refl).
Defined.

Lemma setDelete_setAdd x l : ~ In x l -> setDelete x (setAdd x l) = l.
Proof.
  intros Hx. unfold setAdd, setDelete.
  destruct (in_dec Nat.eq_dec x l) as [Hin | _]; [contradiction |].
  rewrite remove_app. cbn.
  destruct (Nat.eq_dec x x) as [_ | Hne]; [| contradiction].
  rewrite app_nil_r. apply notin_remove. exact Hx.
Qed.

(** A scheduled source joins the end of the active set, and its ['ended']
    listener takes it out again: the set is then what it was before the
    message. *)
Theorem ended_source_leaves_set E node t msg s ctx b64 bytes :
  outputContextRef s = Some ctx ->
  audioPayload msg = Some b64 ->
  decode E b64 = Some bytes ->
  isInterrupted msg = false ->
  (forall c, throws E c = None) ->
  ~ In (nextHandle s) (sourcesRef s) ->
  let s1 := snd (onmessage E node t msg s) in
  sourcesRef s1 = sourcesRef s ++ [nextHandle s] /\
  sourcesRef (snd (onended (nextHandle s) s1)) = sourcesRef s.
Proof.
  intros Hctx Hb64 Hdec Hint Hquiet Hfresh s1.
  destruct (onmessage_audio E node t msg s ctx b64 bytes Hctx Hb64 Hdec Hint
              Hquiet) as (_ & _ & _ & Hset & _).
  fold s1 in Hset. split.
  - rewrite Hset. unfold setAdd.
    destruct (in_dec Nat.eq_dec (nextHandle s) (sourcesRef s));
      [contradiction | reflexivity].
  - unfold onended, write. cbn. rewrite Hset.
    apply setDelete_setAdd. exact Hfresh.
Qed.

Lemma ended_source_leaves_set_witness :
  outputContextRef connected = Some 1%nat /\
  ~ In (nextHandle connected) (sourcesRef connected) /\
  sourcesRef
    (snd (onended (nextHandle connected)
            (snd (onmessage quiet 2%nat 1 (audioMessage "abcd") connected))))
  = sourcesRef connected.
Proof.
  assert (Hctx : outputContextRef connected = Some 1%nat) by evaluate.
  assert (Hfresh : ~ In (nextHandle connected) (sourcesRef connected))
    by (vm_compute; intros H; exact H).
  split; [exact Hctx |]. split; [exact Hfresh |].
  exact (proj2 (ended_source_leaves_set quiet 2%nat 1 (audioMessage "abcd")
                  connected 1%nat "abcd"%string
                  (map (fun a => byte.of_Z (Z.of_nat (Ascii.nat_of_ascii a)))
                     (list_ascii_of_string "abcd"))
                  Hctx eq_refl eq_refl eq_refl (fun _ => eq_refl) Hfresh)).
Defined.

(** When the payload cannot be decoded the handler ends with an exception
    right after it has moved the cursor up to the clock: nothing is
    scheduled, and an interruption flag on the same message is not acted
    on. *)
Theorem undecodable_audio_aborts E node t msg s ctx b64 :
  outputContextRef s = Some ctx ->
  audioPayload msg = Some b64 ->
  decode E b64 = None ->
  exists e,
    onmessage E node t msg s
    = (Throw e, set_nextStartTimeRef (Qmax (nextStartTimeRef s) t) s).
Proof.
  intros Hctx Hpayload Hdec. eexists.
  destruct (audioPayload_read msg b64 Hpayload) as (value & Hread & Hb64).
  unfold onmessage, bind, lift, read, write, awaitDecode, throw.
  rewrite Hread. cbn.
  rewrite Hctx, Hb64. cbn. rewrite Hdec. reflexivity.
Qed.

Lemma undecodable_audio_aborts_witness :
  outputContextRef playing = Some 1%nat /\
  decode undecodable "abcd" = None /\
  exists e,
    onmessage undecodable 2%nat 1 (interruptedAudio "abcd") playing
    = (Throw e,
       set_nextStartTimeRef (Qmax (nextStartTimeRef playing) 1) playing).
Proof.
  assert (Hctx : outputContextRef playing = Some 1%nat) by evaluate.
  split; [exact Hctx |]. split; [reflexivity |].
  exact (undecodable_audio_aborts undecodable 2%nat 1
           (interruptedAudio "abcd") playing 1%nat "abcd"%string
           Hctx eq_refl eq_refl).
Defined.

(** The audio branch on its own: where it leaves the state for the rest of
    the handler. *)
Lemma onmessage_audio_then E node t msg s ctx b64 bytes :
  outputContextRef s = Some ctx ->
  audioPayload msg = Some b64 ->
  decode E b64 = Some bytes ->
  (forall c, throws E c = None) ->
  exists s1,
    onmessage E node t msg s
    = (if isInterrupted msg
       then
         setLogs (fun prev => prev ++ ["Interrupted."%string]) ;;
         (sources <- read sourcesRef ;;
          forEach sources (fun n => call E (SourceStop n))) ;;
         write (set_sourcesRef []) ;;
         write (set_nextStartTimeRef 0)
       else ret tt) s1 /\
    trace s1 = trace s ++ [CreateBufferSource ctx (nextHandle s);
                           ConnectNode (nextHandle s) node;
                           SourceStart (nextHandle s)
                             (decodeAudioData bytes 24000 1)
                             (Qmax (nextStartTimeRef s) t)] /\
    sourcesRef s1 = setAdd (nextHandle s) (sourcesRef s).
Proof.
  intros Hctx Hpayload Hdec Hquiet.
  destruct (audioPayload_read msg b64 Hpayload) as (value & Hread & Hb64).
  eexists. split; [| split].
  - unfold onmessage. unfold bind at 1. unfold lift. rewrite Hread.
    unfold bind at 1.
    unfold bind, read, write, awaitDecode, fresh, call, ret. cbn.
    rewrite Hctx, Hb64. cbn. rewrite Hdec. cbn.
    rewrite !Hquiet. cbn. reflexivity.
  - cbn. rewrite <- !app_assoc. reflexivity.
  - reflexivity.
Qed.

(** A message with both audio and the interruption flag: its buffer is
    started and then stopped along with all the others; the set ends empty
    and the cursor at 0. *)
Theorem audio_with_interruption E node t msg s ctx b64 bytes :
  outputContextRef s = Some ctx ->
  audioPayload msg = Some b64 ->
  decode E b64 = Some bytes ->
  isInterrupted msg = true ->
  (forall c, throws E c = None) ->
  let src := nextHandle s in
  callsOf (onmessage E node t msg) s
  = [CreateBufferSource ctx src; ConnectNode src node;
     SourceStart src (decodeAudioData bytes 24000 1)
       (Qmax (nextStartTimeRef s) t)]
    ++ map SourceStop (setAdd src (sourcesRef s)) /\
  playback (snd (onmessage E node t msg s)) = (0, []).
Proof.
  intros Hctx Hb64 Hdec Hint Hquiet src.
  destruct (onmessage_audio_then E node t msg s ctx b64 bytes Hctx Hb64 Hdec
              Hquiet) as (s1 & Heq & Htrace & Hset).
  rewrite Hint in Heq.
  destruct (interrupted_emits E s1) as [Htail Hres].
  rewrite (quiet_firstThrow E _ Hquiet) in Hres.
  rewrite (untilThrow_quiet E _ (quiet_firstThrow E _ Hquiet)) in Htail.
  rewrite <- Heq in Htail, Hres.
  destruct (interruption_clears E node t msg Hint s Hres) as [Hempty Hzero].
  split.
  - apply callsOf_app. rewrite Htail, Htrace, Hset, <- app_assoc. reflexivity.
  - unfold playback. rewrite Hempty, Hzero. reflexivity.
Qed.

Lemma audio_with_interruption_witness :
  outputContextRef playing = Some 1%nat /\
  isInterrupted (interruptedAudio "abcd") = true /\
  playback (snd (onmessage quiet 2%nat 1 (interruptedAudio "abcd") playing))
  = (0, []).
Proof.
  assert (Hctx : outputContextRef playing = Some 1%nat) by evaluate.
  split; [exact Hctx |]. split; [reflexivity |].
  exact (proj2 (audio_with_interruption quiet 2%nat 1
                  (interruptedAudio "abcd") playing 1%nat "abcd"%string
                  (map (fun a => byte.of_Z (Z.of_nat (Ascii.nat_of_ascii a)))
                     (list_ascii_of_string "abcd"))
                  Hctx eq_refl eq_refl eq_refl (fun _ => eq_refl))).
Defined.

Ltac cursor_side :=
  first
    [ assumption
    | cbn;
      match goal with
      | H : (?v <= nextStartTimeRef ?s)%Q |- (?v <= Qmax _ _)%Q =>
          apply Qle_trans with (nextStartTimeRef s);
          [exact H | apply Q.le_max_l]
      | H : (?v <= nextStartTimeRef ?s)%Q
        |- (?v <= nextStartTimeRef ?s + duration ?b)%Q =>
          pose proof (duration_nonneg b); lra
      end ].

(** Without the interruption flag the cursor never moves back, whatever
    the message carries and whichever call throws. *)
Theorem cursor_never_goes_back E node t msg s :
  isInterrupted msg = false ->
  nextStartTimeRef s <= nextStartTimeRef (snd (onmessage E node t msg s)).
Proof.
  intros Hint.
  assert (H : preserves (fun s' => nextStartTimeRef s <= nextStartTimeRef s')
                (onmessage E node t msg)).
  { unfold onmessage. rewrite Hint. preserves_tac cursor_side. }
  apply H. apply Qle_refl.
Qed.

Lemma cursor_never_goes_back_witness :
  isInterrupted (audioMessage "abcd") = false /\
  nextStartTimeRef playing
  <= nextStartTimeRef
       (snd (onmessage closeFails 2%nat 1 (audioMessage "abcd") playing)).
Proof.
  split; [reflexivity |].
  apply (cursor_never_goes_back closeFails 2%nat 1 (audioMessage "abcd")
           playing eq_refl).
Defined.

(** Gapless or late: a buffer that arrives while the cursor is still ahead
    of the clock starts exactly at the cursor; one that arrives after the
    clock has passed the cursor starts at the clock. *)
Theorem buffer_starts_at_cursor_or_clock E node t msg s ctx b64 bytes :
  outputContextRef s = Some ctx ->
  audioPayload msg = Some b64 ->
  decode E b64 = Some bytes ->
  isInterrupted msg = false ->
  (forall c, throws E c = None) ->
  exists start,
    scheduled (callsOf (onmessage E node t msg) s)
    = [(start, decodeAudioData bytes 24000 1)] /\
    (t <= nextStartTimeRef s -> start == nextStartTimeRef s) /\
    (nextStartTimeRef s <= t -> start == t).
Proof.
  intros Hctx Hb64 Hdec Hint Hquiet.
  destruct (onmessage_audio E node t msg s ctx b64 bytes Hctx Hb64 Hdec Hint
              Hquiet) as (_ & Htrace & _).
  exists (Qmax (nextStartTimeRef s) t).
  rewrite (callsOf_app _ s _ Htrace).
  split; [reflexivity |]. split; intros Hle.
  - apply Q.max_l. exact Hle.
  - apply Q.max_r. exact Hle.
Qed.

Lemma buffer_starts_at_cursor_or_clock_witness :
  outputContextRef playing = Some 1%nat /\
  exists start,
    scheduled (callsOf (onmessage quiet 2%nat 1 (audioMessage "abcd")) playing)
    = [(start, bufferOfText "abcd")] /\
    (1 <= nextStartTimeRef playing -> start == nextStartTimeRef playing) /\
    (nextStartTimeRef playing <= 1 -> start == 1).
Proof.
  assert (Hctx : outputContextRef playing = Some 1%nat) by evaluate.
  split; [exact Hctx |].
  exact (buffer_starts_at_cursor_or_clock quiet 2%nat 1 (audioMessage "abcd")
           playing 1%nat "abcd"%string
           (map (fun a => byte.of_Z (Z.of_nat (Ascii.nat_of_ascii a)))
              (list_ascii_of_string "abcd"))
           Hctx eq_refl eq_refl eq_refl (fun _ => eq_refl)).
Defined.

(** A message that carries neither audio nor the interruption flag changes
    nothing: the state, trace of calls included, is as before, whether the
    handler returns or its first line throws; and it returns exactly when
    that line can be read. *)
Theorem plain_message_changes_nothing E node t msg s :
  audioPayload msg = None ->
  isInterrupted msg = false ->
  snd (onmessage E node t msg s) = s /\
  callsOf (onmessage E node t msg) s = [] /\
  fst (onmessage E node t msg s)
  = match base64Audio msg with
    | Ok _ => Ok tt
    | Throw e => Throw e
    end.
Proof.
  intros Hpayload Hint. unfold callsOf, audioPayload in *.
  destruct (base64Audio msg) as [value | e] eqn:Hread.
  - rewrite (onmessage_ignored E node t msg s value Hread Hpayload Hint).
    cbn. repeat split.
    rewrite <- (app_nil_r (trace s)) at 2. apply skipn_app_length.
  - rewrite (onmessage_unread E node t msg s e Hread).
    cbn. repeat split.
    rewrite <- (app_nil_r (trace s)) at 2. apply skipn_app_length.
Qed.

Lemma plain_message_changes_nothing_witness :
  audioPayload turnComplete = None /\
  isInterrupted turnComplete = false /\
  snd (onmessage quiet 2%nat 5 turnComplete playing) = playing /\
  fst (onmessage quiet 2%nat 5 turnComplete playing) = Ok tt.
Proof.
  split; [reflexivity |]. split; [reflexivity |].
  destruct (plain_message_changes_nothing quiet 2%nat 5 turnComplete playing
              eq_refl eq_refl) as (Hstate & _ & Hresult).
  split; [exact Hstate | exact Hresult].
Defined.

(* ===================================================================== *)
(** ** More about starting and stopping                                   *)
(* ===================================================================== *)

Ltac cases E :=
  repeat match goal with
         | |- context [throws E ?c] =>
             destruct (throws E c); cbv beta iota
         end.

Lemma stop_keeps_cursor E : keeps nextStartTimeRef (stopLiveSession E).
Proof. unfold stopLiveSession. keeps_tac. Qed.

Lemma start_keeps_cursor E : keeps nextStartTimeRef (startLiveSession E).
Proof. unfold startLiveSession. keeps_tac. Qed.

(** Neither the stop nor the start touches the playback cursor: the cursor
    of a closed session is the cursor of the next one, and the first buffer
    of the new session starts no earlier than it. *)
Theorem cursor_survives_restart E s node t msg ctx b64 bytes :
  let s2 := snd (startLiveSession E (snd (stopLiveSession E s))) in
  (forall c, throws E c = None) ->
  outputContextRef s2 = Some ctx ->
  audioPayload msg = Some b64 ->
  decode E b64 = Some bytes ->
  isInterrupted msg = false ->
  nextStartTimeRef s2 = nextStartTimeRef s /\
  scheduled (callsOf (onmessage E node t msg) s2)
  = [(Qmax (nextStartTimeRef s) t, decodeAudioData bytes 24000 1)].
Proof.
  intros s2 Hquiet Hctx Hb64 Hdec Hint.
  assert (Hcursor : nextStartTimeRef s2 = nextStartTimeRef s).
  { unfold s2. rewrite start_keeps_cursor. apply stop_keeps_cursor. }
  split; [exact Hcursor |].
  destruct (onmessage_audio E node t msg s2 ctx b64 bytes Hctx Hb64 Hdec Hint
              Hquiet) as (_ & Htrace & _).
  rewrite (callsOf_app _ s2 _ Htrace), Hcursor. reflexivity.
Qed.

Lemma cursor_survives_restart_witness :
  outputContextRef
    (snd (startLiveSession quiet (snd (stopLiveSession quiet playing))))
  = Some 11%nat /\
  nextStartTimeRef
    (snd (startLiveSession quiet (snd (stopLiveSession quiet playing))))
  = nextStartTimeRef playing.
Proof.
  assert (Hctx : outputContextRef
                   (snd (startLiveSession quiet
                           (snd (stopLiveSession quiet playing))))
                 = Some 11%nat) by evaluate.
  split; [exact Hctx |].
  exact (proj1 (cursor_survives_restart quiet playing 2%nat 0
                  (audioMessage "abcd") 11%nat "abcd"%string
                  (map (fun a => byte.of_Z (Z.of_nat (Ascii.nat_of_ascii a)))
                     (list_ascii_of_string "abcd"))
                  (fun _ => eq_refl) Hctx eq_refl eq_refl eq_refl)).
Defined.



(** [onopen] without an input context or without a stream wires nothing:
    it logs, shows the session as connected and makes no call. *)
Theorem onopen_without_capture E s :
  inputContextRef s = None \/ streamRef s = None ->
  onopen E s
  = (Ok tt,
     set_liveConnected true
       (set_logs (logs s ++ ["Connected! Start speaking."%string]) s)).
Proof.
  intros Hmissing. unfold onopen, bind, read, write, setLogs,
    setLiveConnected, ret. cbn.
  destruct Hmissing as [-> | Hstream].
  - reflexivity.
  - rewrite Hstream. destruct (inputContextRef s); reflexivity.
Qed.

Lemma onopen_without_capture_witness :
  (inputContextRef mounted = None \/ streamRef mounted = None) /\
  onopen closeFails mounted
  = (Ok tt,
     set_liveConnected true
       (set_logs (logs mounted ++ ["Connected! Start speaking."%string])
          mounted)).
Proof.
  split; [left; reflexivity |].
  apply (onopen_without_capture closeFails mounted (or_introl eq_refl)).
Defined.

Lemma start_makes_no_release E :
  callsAll (fun c => isRelease c = false) (startLiveSession E).
Proof. unfold startLiveSession. callsAll_tac ltac:(reflexivity). Qed.

(** A close event from the transport releases nothing: every handle, the
    active set and the cursor stay, no call is made; yet the Start button
    comes back, and the click on it then starts over the handles still held
    without releasing any. *)
Theorem remote_close_releases_nothing E s :
  let s1 := snd (onclose s) in
  resources s1 = resources s /\
  playback s1 = playback s /\
  openSessions s1 = openSessions s /\
  callsOf onclose s = [] /\
  offered s1 = StartConversation /\
  Forall (fun c => isRelease c = false) (callsOf (click E) s1).
Proof.
  cbn zeta. repeat split.
  - unfold callsOf, onclose, bind, setLogs, setLiveConnected, write. cbn.
    rewrite <- (app_nil_r (trace s)) at 2. apply skipn_app_length.
  - assert (Hclick : snd (click E (snd (onclose s)))
                     = snd (startLiveSession E (snd (onclose s))))
      by reflexivity.
    unfold callsOf. rewrite Hclick.
    apply (callsAll_callsOf _ (startLiveSession E)).
    apply start_makes_no_release.
Qed.

(** The state a start leaves when nothing throws. *)
Lemma start_quiet E s :
  (forall c, throws E c = None) ->
  let n := nextHandle s in
  let s1 := snd (startLiveSession E s) in
  resources s1
  = (Some (5 + n)%nat,
     Some {| streamId := (3 + n)%nat; tracks := [(4 + n)%nat] |},
     Some (7 + n)%nat, Some (6 + n)%nat, Some n, Some (1 + n)%nat) /\
  sourcesRef s1 = sourcesRef s /\
  liveConnected s1 = true /\
  openSessions s1 = openSessions s ++ [(5 + n)%nat].
Proof.
  intros Hquiet.
  destruct s as [se ic oc st pr sr nst srcs lc lg tr op al nh].
  cbv -[app String.append throws].
  rewrite !Hquiet. cbv beta iota. repeat split.
Qed.

Lemma onopen_returns E s :
  (forall c, throws E c = None) -> fst (onopen E s) = Ok tt.
Proof.
  intros Hquiet.
  unfold onopen, bind, read, write, setLogs, setLiveConnected, fresh, call,
    ret.
  cbn. destruct (inputContextRef s), (streamRef s); cbn; rewrite ?Hquiet;
    cbn; rewrite ?Hquiet; reflexivity.
Qed.

Lemma stop_quiet E s :
  (forall c, throws E c = None) ->
  fst (stopLiveSession E s) = Ok tt /\
  callsOf (stopLiveSession E) s = teardownCalls s.
Proof.
  intros Hquiet. destruct (stop_emits E s) as [Htrace Hres].
  rewrite (quiet_firstThrow E _ Hquiet) in Hres.
  rewrite (untilThrow_quiet E _ (quiet_firstThrow E _ Hquiet)) in Htrace.
  split; [exact Hres | apply callsOf_app; exact Htrace].
Qed.

Lemma stop_disconnects E :
  ensures (stopLiveSession E) (fun s => liveConnected s = false).
Proof.
  unfold stopLiveSession. do 8 apply ensures_later. apply ensures_first.
  - intros s _. reflexivity.
  - preserves_tac ltac:(assumption).
Qed.

(** A stop after a start, nothing throwing, gives back exactly the six
    objects the start acquired (and stops the buffers still in the set):
    whatever the refs held before the start is not released by it. *)
Theorem stop_releases_what_start_acquired E s :
  (forall c, throws E c = None) ->
  let n := nextHandle s in
  let s1 := snd (startLiveSession E s) in
  let s2 := snd (stopLiveSession E s1) in
  callsOf (stopLiveSession E) s1
  = [SessionClose (5 + n)%nat; TrackStop (4 + n)%nat;
     NodeDisconnect (7 + n)%nat; NodeDisconnect (6 + n)%nat;
     ContextClose n; ContextClose (1 + n)%nat]
    ++ map SourceStop (sourcesRef s) /\
  released s2 /\
  liveConnected s2 = false.
Proof.
  intros Hquiet n s1 s2.
  destruct (start_quiet E s Hquiet) as (Hres & Hsrcs & _ & _).
  fold n s1 in Hres, Hsrcs.
  destruct (stop_quiet E s1 Hquiet) as [Hok Hcalls].
  split; [| split].
  - rewrite Hcalls. unfold teardownCalls.
    unfold resources in Hres. injection Hres as -> -> -> -> -> ->.
    rewrite Hsrcs. reflexivity.
  - apply stop_releases. exact Hok.
  - apply stop_disconnects. exact Hok.
Qed.

Lemma stop_releases_what_start_acquired_witness :
  (forall c, throws quiet c = None) /\
  callsOf (stopLiveSession quiet) (snd (startLiveSession quiet connected))
  = [SessionClose (5 + nextHandle connected)%nat;
     TrackStop (4 + nextHandle connected)%nat;
     NodeDisconnect (7 + nextHandle connected)%nat;
     NodeDisconnect (6 + nextHandle connected)%nat;
     ContextClose (nextHandle connected);
     ContextClose (1 + nextHandle connected)%nat]
    ++ map SourceStop (sourcesRef connected).
Proof.
  split; [intros c; reflexivity |].
  exact (proj1 (stop_releases_what_start_acquired quiet connected
                  (fun _ => eq_refl))).
Defined.

Lemma stop_closes_session E s :
  oneSession s -> fst (stopLiveSession E s) = Ok tt ->
  openSessions (snd (stopLiveSession E s)) = [].
Proof.
  intros Hs Hok.
  destruct (stop_oneSession E s Hs) as [Hclosed | (h & _ & Href & _)];
    [exact Hclosed |].
  destruct (stop_releases E s Hok) as [Hres _].
  unfold resources, noResources in Hres. congruence.
Qed.

(** The cleanup of the mount effect: when the component goes away while at
    most its own session is open and no release throws, nothing is left
    held and no session is left open. *)
Theorem unmount_closes_session E s :
  (forall c, throws E c = None) ->
  oneSession s ->
  let s' := snd (Lab.unmount E s) in
  released s' /\ openSessions s' = [] /\ liveConnected s' = false.
Proof.
  intros Hquiet Hs. cbn zeta.
  assert (Hsnd : snd (Lab.unmount E s) = snd (stopLiveSession E s))
    by reflexivity.
  rewrite Hsnd. destruct (stop_quiet E s Hquiet) as [Hok _].
  split; [| split].
  - apply stop_releases. exact Hok.
  - apply stop_closes_session; assumption.
  - apply stop_disconnects. exact Hok.
Qed.

Lemma unmount_closes_session_witness :
  (forall c, throws quiet c = None) /\
  oneSession playing /\
  openSessions (snd (Lab.unmount quiet playing)) = [].
Proof.
  assert (Hone : oneSession playing).
  { right. exists 5%nat. vm_compute. repeat split. }
  split; [intros c; reflexivity |]. split; [exact Hone |].
  exact (proj1 (proj2 (unmount_closes_session quiet playing
                         (fun _ => eq_refl) Hone))).
Defined.

(** Start Conversation and then End Session, nothing throwing: after the
    first click the component is connected with exactly the new session
    open, after the second everything is released and no session is
    open. *)
Theorem two_clicks_return_to_idle E s :
  (forall c, throws E c = None) ->
  openSessions s = [] ->
  liveConnected s = false ->
  let s1 := snd (click E s) in
  let s2 := snd (click E s1) in
  liveConnected s1 = true /\
  openSessions s1 = [(5 + nextHandle s)%nat] /\
  released s2 /\ openSessions s2 = [] /\ liveConnected s2 = false.
Proof.
  intros Hquiet Hopen Hidle.
  assert (H1 : snd (click E s) = snd (startLiveSession E s)).
  { unfold click, bind, read, dispatch, offered. cbn. rewrite Hidle.
    reflexivity. }
  cbn zeta. rewrite H1.
  destruct (start_quiet E s Hquiet) as (_ & _ & Hlive & Hsessions).
  rewrite Hopen in Hsessions.
  assert (H2 : snd (click E (snd (startLiveSession E s)))
               = snd (stopLiveSession E (snd (startLiveSession E s)))).
  { unfold click, bind, read, dispatch, offered. cbn. rewrite Hlive.
    reflexivity. }
  rewrite H2.
  destruct (stop_quiet E (snd (startLiveSession E s)) Hquiet) as [Hok _].
  split; [exact Hlive |]. split; [exact Hsessions |].
  split; [apply stop_releases; exact Hok |].
  split; [| apply stop_disconnects; exact Hok].
  apply stop_closes_session; [| exact Hok].
  apply start_oneSession; [| exact Hopen].
  intros s0. apply onopen_returns. exact Hquiet.
Qed.

Lemma two_clicks_return_to_idle_witness :
  (forall c, throws quiet c = None) /\
  openSessions mounted = [] /\
  liveConnected mounted = false /\
  liveConnected (snd (click quiet mounted)) = true.
Proof.
  split; [intros c; reflexivity |]. split; [reflexivity |].
  split; [reflexivity |].
  exact (proj1 (two_clicks_return_to_idle quiet mounted
                  (fun _ => eq_refl) eq_refl eq_refl)).
Defined.

Lemma stop_without_session E s :
  sessionRef s = None ->
  openSessions (snd (stopLiveSession E s)) = openSessions s.
Proof.
  intros Href. unfold stopLiveSession. apply bind_cases.
  - intros e s1 Heq. unfold bind, read, whenSome in Heq. cbn in Heq.
    rewrite Href in Heq. discriminate Heq.
  - intros [] s1 Heq. unfold bind, read, whenSome, ret in Heq. cbn in Heq.
    rewrite Href in Heq. injection Heq as <-. cbv beta.
    match goal with
    | |- openSessions (snd (?m s)) = _ =>
        assert (Hp : preserves (fun s' => openSessions s' = openSessions s) m)
          by preserves_tac ltac:(first [assumption | cbn; assumption]);
        apply (Hp s)
    end.
    reflexivity.
Qed.

(** When a call of [onopen] throws, the connect promise never settles and
    the start is left waiting: nothing is alerted, the component shows as
    connected and the new session is open, but it never reaches
    [sessionRef]. The End Session button is then on display, and the click
    on it closes no session: the one just opened stays open. *)
Theorem failed_wiring_orphans_session E s e :
  firstThrow E (startCalls s) = None ->
  firstThrow E (openCalls s) = Some e ->
  sessionRef s = None ->
  let n := nextHandle s in
  let s1 := snd (startLiveSession E s) in
  let s2 := snd (click E s1) in
  sessionRef s1 = None /\
  alerts s1 = alerts s /\
  offered s1 = EndSession /\
  openSessions s1 = openSessions s ++ [(5 + n)%nat] /\
  openSessions s2 = openSessions s1.
Proof.
  intros Hstart Hopen Href n s1 s2.
  assert (Hs1 : sessionRef s1 = None /\ alerts s1 = alerts s /\
                liveConnected s1 = true /\
                openSessions s1 = openSessions s ++ [(5 + n)%nat]).
  { subst n s1 s2. revert Hstart Hopen Href.
    destruct s as [se ic oc st pr sr nst srcs lc lg tr op al nh].
    cbv -[app String.append throws].
    cases E.
    all: intros Hstart Hopen Href.
    all: try discriminate Hstart.
    all: try discriminate Hopen.
    all: repeat split; exact Href. }
  destruct Hs1 as (Hnone & Halerts & Hlive & Hsessions).
  assert (Hclick : s2 = snd (stopLiveSession E s1)).
  { subst s2. unfold click, bind, read, dispatch, offered. cbn.
    rewrite Hlive. reflexivity. }
  split; [exact Hnone |]. split; [exact Halerts |].
  split; [unfold offered; rewrite Hlive; reflexivity |].
  split; [exact Hsessions |].
  rewrite Hclick. apply stop_without_session. exact Hnone.
Qed.

Lemma failed_wiring_orphans_session_witness :
  firstThrow wiringFails (startCalls mounted) = None /\
  firstThrow wiringFails (openCalls mounted) = Some "NotSupportedError"%string /\
  sessionRef mounted = None /\
  openSessions (snd (click wiringFails
                       (snd (startLiveSession wiringFails mounted))))
  = openSessions (snd (startLiveSession wiringFails mounted)).
Proof.
  split; [reflexivity |]. split; [reflexivity |]. split; [reflexivity |].
  exact (proj2 (proj2 (proj2 (proj2
           (failed_wiring_orphans_session wiringFails mounted
              "NotSupportedError"%string eq_refl eq_refl eq_refl))))).
Defined.

(** Without the condition on [onopen] the clicks do not keep sessions apart:
    Start, End, Start over a failing [onopen] leaves two sessions open. *)
Lemma clicks_after_failed_wiring :
  openSessions (snd (clicks wiringFails 3 mounted)) = [5%nat; 12%nat].
Proof. vm_compute. reflexivity. Qed.

(* ===================================================================== *)
(** ** The text-to-speech and transcription handlers                      *)
(* ===================================================================== *)

Import Lab.

Arguments tryFinallyL : simpl never.
Arguments tryCatchL : simpl never.

(** *** What a panel handler leaves alone *)

Lemma preservesL_retL {A} (P : State -> Prop) (a : A) : preservesL P (retL a).
Proof. intros p H. exact H. Qed.

Lemma preservesL_readL {A} (P : State -> Prop) (f : Panel -> A) :
  preservesL P (readL f).
Proof. intros p H. exact H. Qed.

Lemma preservesL_awaitL {A} (P : State -> Prop) (r : Result A) :
  preservesL P (awaitL r).
Proof. intros p H. exact H. Qed.

Lemma preservesL_writeL (P : State -> Prop) f :
  (forall p, live (f p) = live p) -> preservesL P (writeL f).
Proof. intros Hf p H. cbn. rewrite Hf. exact H. Qed.

Lemma preservesL_liveL {A} (P : State -> Prop) (m : M A) :
  preserves P m -> preservesL P (liveL m).
Proof.
  intros Hm p H. unfold liveL. specialize (Hm (live p) H).
  destruct (m (live p)) as [r s1]. exact Hm.
Qed.

Lemma preservesL_bindL {A B} (P : State -> Prop) (m : L A) (k : A -> L B) :
  preservesL P m -> (forall a, preservesL P (k a)) -> preservesL P (bindL m k).
Proof.
  intros Hm Hk p H. unfold bindL. specialize (Hm p H).
  destruct (m p) as [[a | e] p1]; cbn in *.
  - apply Hk. exact Hm.
  - exact Hm.
Qed.

Lemma preservesL_tryCatchL {A} (P : State -> Prop) (m : L A) h :
  preservesL P m -> (forall e, preservesL P (h e)) ->
  preservesL P (tryCatchL m h).
Proof.
  intros Hm Hh p H. unfold tryCatchL. specialize (Hm p H).
  destruct (m p) as [[a | e] p1]; cbn in *.
  - exact Hm.
  - apply Hh. exact Hm.
Qed.

Lemma preservesL_tryFinallyL {A} (P : State -> Prop) (m : L A) c :
  preservesL P m -> preservesL P c -> preservesL P (tryFinallyL m c).
Proof.
  intros Hm Hc p H. unfold tryFinallyL. specialize (Hm p H).
  destruct (m p) as [r p1]. specialize (Hc p1 Hm).
  destruct (c p1) as [[[] | e] p2]; exact Hc.
Qed.

Ltac preservesL_step side :=
  lazymatch goal with
  | |- preservesL _ (bindL _ _) => apply preservesL_bindL; [| intros ?]
  | |- preservesL _ (retL _) => apply preservesL_retL
  | |- preservesL _ (readL _) => apply preservesL_readL
  | |- preservesL _ (awaitL _) => apply preservesL_awaitL
  | |- preservesL _ (writeL _) =>
      apply preservesL_writeL; intros ?; reflexivity
  | |- preservesL _ (tryCatchL _ _) =>
      apply preservesL_tryCatchL; [| intros ?]
  | |- preservesL _ (tryFinallyL _ _) => apply preservesL_tryFinallyL
  | |- preservesL _ (liveL _) =>
      apply preservesL_liveL; preserves_tac side
  | |- preservesL _ (match ?x with _ => _ end) => destruct x
  | |- preservesL _ (let x := _ in _) => cbv zeta
  end.

Ltac preservesL_tac side := repeat preservesL_step side.

Lemma callsAllL_silent {A} (P : Call -> Prop) (m : L A) :
  (forall p, trace (live (snd (m p))) = trace (live p)) -> callsAllL P m.
Proof.
  intros H p. exists []. rewrite app_nil_r. split; [apply H | constructor].
Qed.

Lemma callsAllL_liveL {A} (P : Call -> Prop) (m : M A) :
  callsAll P m -> callsAllL P (liveL m).
Proof.
  intros Hm p. unfold liveL. destruct (Hm (live p)) as (cs & Ht & Hp).
  destruct (m (live p)) as [r s1]. exists cs. split; assumption.
Qed.

Lemma callsAllL_bindL {A B} (P : Call -> Prop) (m : L A) (k : A -> L B) :
  callsAllL P m -> (forall a, callsAllL P (k a)) -> callsAllL P (bindL m k).
Proof.
  intros Hm Hk p. unfold bindL. destruct (Hm p) as (cs1 & Ht1 & Hp1).
  destruct (m p) as [[a | e] p1]; cbn in *.
  - destruct (Hk a p1) as (cs2 & Ht2 & Hp2).
    exists (cs1 ++ cs2). rewrite Ht2, Ht1, app_assoc. split; [reflexivity |].
    apply Forall_app. split; assumption.
  - exists cs1. split; assumption.
Qed.

Lemma callsAllL_tryCatchL {A} (P : Call -> Prop) (m : L A) h :
  callsAllL P m -> (forall e, callsAllL P (h e)) -> callsAllL P (tryCatchL m h).
Proof.
  intros Hm Hh p. unfold tryCatchL. destruct (Hm p) as (cs1 & Ht1 & Hp1).
  destruct (m p) as [[a | e] p1]; cbn in *.
  - exists cs1. split; assumption.
  - destruct (Hh e p1) as (cs2 & Ht2 & Hp2).
    exists (cs1 ++ cs2). rewrite Ht2, Ht1, app_assoc. split; [reflexivity |].
    apply Forall_app. split; assumption.
Qed.

Lemma callsAllL_tryFinallyL {A} (P : Call -> Prop) (m : L A) c :
  callsAllL P m -> callsAllL P c -> callsAllL P (tryFinallyL m c).
Proof.
  intros Hm Hc p. unfold tryFinallyL. destruct (Hm p) as (cs1 & Ht1 & Hp1).
  destruct (m p) as [r p1]. cbn in *.
  destruct (Hc p1) as (cs2 & Ht2 & Hp2).
  exists (cs1 ++ cs2). split.
  - destruct (c p1) as [[[] | e] p2]; cbn in *;
      rewrite Ht2, Ht1, app_assoc; reflexivity.
  - apply Forall_app. split; assumption.
Qed.

Ltac callsAllL_step side :=
  lazymatch goal with
  | |- callsAllL _ (bindL _ _) => apply callsAllL_bindL; [| intros ?]
  | |- callsAllL _ (tryCatchL _ _) => apply callsAllL_tryCatchL; [| intros ?]
  | |- callsAllL _ (tryFinallyL _ _) => apply callsAllL_tryFinallyL
  | |- callsAllL _ (liveL _) => apply callsAllL_liveL; callsAll_tac side
  | |- callsAllL _ (match ?x with _ => _ end) => destruct x
  | |- callsAllL _ (let x := _ in _) => cbv zeta
  | |- callsAllL _ _ => apply callsAllL_silent; intros ?; reflexivity
  end.

Ltac callsAllL_tac side := repeat callsAllL_step side.

Lemma keepsPanel_retL {A B} (f : Panel -> A) (b : B) : keepsPanel f (retL b).
Proof. intros p. reflexivity. Qed.

Lemma keepsPanel_readL {A B} (f : Panel -> A) (g : Panel -> B) :
  keepsPanel f (readL g).
Proof. intros p. reflexivity. Qed.

Lemma keepsPanel_awaitL {A B} (f : Panel -> A) (r : Result B) :
  keepsPanel f (awaitL r).
Proof. intros p. reflexivity. Qed.

Lemma keepsPanel_writeL {A} (f : Panel -> A) g :
  (forall p, f (g p) = f p) -> keepsPanel f (writeL g).
Proof. intros H p. apply H. Qed.

Lemma keepsPanel_liveL {A B} (f : Panel -> A) (m : M B) :
  (forall s p, f (set_live s p) = f p) -> keepsPanel f (liveL m).
Proof.
  intros H p. unfold liveL. destruct (m (live p)) as [r s1]. apply H.
Qed.

Lemma keepsPanel_bindL {A B C} (f : Panel -> A) (m : L B) (k : B -> L C) :
  keepsPanel f m -> (forall b, keepsPanel f (k b)) -> keepsPanel f (bindL m k).
Proof.
  intros Hm Hk p. unfold bindL. specialize (Hm p).
  destruct (m p) as [[b | e] p1]; cbn in *.
  - rewrite (Hk b p1). exact Hm.
  - exact Hm.
Qed.

Lemma keepsPanel_tryCatchL {A B} (f : Panel -> A) (m : L B) h :
  keepsPanel f m -> (forall e, keepsPanel f (h e)) ->
  keepsPanel f (tryCatchL m h).
Proof.
  intros Hm Hh p. unfold tryCatchL. specialize (Hm p).
  destruct (m p) as [[b | e] p1]; cbn in *.
  - exact Hm.
  - rewrite (Hh e p1). exact Hm.
Qed.

Lemma keepsPanel_tryFinallyL {A B} (f : Panel -> A) (m : L B) c :
  keepsPanel f m -> keepsPanel f c -> keepsPanel f (tryFinallyL m c).
Proof.
  intros Hm Hc p. unfold tryFinallyL. specialize (Hm p).
  destruct (m p) as [r p1]. specialize (Hc p1).
  destruct (c p1) as [[[] | e] p2]; cbn in *; congruence.
Qed.

Ltac keepsPanel_step :=
  lazymatch goal with
  | |- keepsPanel _ (bindL _ _) => apply keepsPanel_bindL; [| intros ?]
  | |- keepsPanel _ (retL _) => apply keepsPanel_retL
  | |- keepsPanel _ (readL _) => apply keepsPanel_readL
  | |- keepsPanel _ (awaitL _) => apply keepsPanel_awaitL
  | |- keepsPanel _ (writeL _) =>
      apply keepsPanel_writeL; intros ?; reflexivity
  | |- keepsPanel _ (liveL _) =>
      apply keepsPanel_liveL; intros ? ?; reflexivity
  | |- keepsPanel _ (tryCatchL _ _) =>
      apply keepsPanel_tryCatchL; [| intros ?]
  | |- keepsPanel _ (tryFinallyL _ _) => apply keepsPanel_tryFinallyL
  | |- keepsPanel _ (match ?x with _ => _ end) => destruct x
  | |- keepsPanel _ (let x := _ in _) => cbv zeta
  end.

Ltac keepsPanel_tac := repeat keepsPanel_step.

Lemma keepsLive_of_preservesL {A B} (f : State -> A) (m : L B) :
  (forall v, preservesL (fun s => f s = v) m) -> keepsLive f m.
Proof. intros H p. apply (H (f (live p)) p). reflexivity. Qed.

Ltac keepsLive_tac :=
  apply keepsLive_of_preservesL; intros ?;
  preservesL_tac ltac:(first [assumption | cbn in *; assumption]).

Lemma tryCatchL_alert (body : L unit) (text : string -> string) p :
  fst (tryCatchL body (fun e => liveL (alert (text e))) p) = Ok tt.
Proof.
  unfold tryCatchL. destruct (body p) as [[[] | e] p1]; reflexivity.
Qed.

Lemma tryFinallyL_writeL {A} (body : L A) f p :
  tryFinallyL body (writeL f) p = (fst (body p), f (snd (body p))).
Proof.
  unfold tryFinallyL, writeL. destruct (body p) as [r p1]. reflexivity.
Qed.

(** The shape both handlers share once they are past their guard. *)
Lemma busy_then_settled (body : L unit) (text : string -> string)
    (f g : Panel -> Panel) p :
  let r := bindL (writeL f)
             (fun _ => tryFinallyL
                         (tryCatchL body (fun e => liveL (alert (text e))))
                         (writeL g)) p in
  fst r = Ok tt /\ exists q, snd r = g q.
Proof.
  cbv zeta.
  match goal with
  | |- context [bindL (writeL f) ?k p] =>
      change (bindL (writeL f) k p) with (k tt (f p))
  end.
  cbv beta. rewrite tryFinallyL_writeL. cbn [fst snd]. split.
  - apply tryCatchL_alert.
  - eexists. reflexivity.
Qed.

Lemma callsOfL_app {A} (m : L A) p cs :
  trace (live (snd (m p))) = trace (live p) ++ cs -> callsOfL m p = cs.
Proof. unfold callsOfL. intros ->. apply skipn_app_length. Qed.

Ltac run_panel :=
  unfold bindL, readL, writeL, retL, awaitL, tryFinallyL, tryCatchL, liveL,
    call, fresh, alert, setLogs, awaitDecode, write, ret, throw;
  cbn.

(** *** [handleTTS] *)

(** With nothing typed in, Speak does nothing at all. *)
Theorem tts_empty_input R p :
  ttsInput p = ""%string -> handleTTS R p = (Ok tt, p).
Proof.
  intros Hempty. unfold handleTTS, bindL, readL. cbn. rewrite Hempty.
  reflexivity.
Qed.

Lemma tts_empty_input_witness :
  ttsInput opened = ""%string /\ handleTTS offline opened = (Ok tt, opened).
Proof.
  split; [reflexivity |]. apply (tts_empty_input offline opened eq_refl).
Defined.

(** [handleTTS] never lets an exception out, and once past its guard it
    always ends with the loading flag down; it leaves the typed text and
    the cells of the transcription tab alone. *)
Theorem tts_settles R p :
  fst (handleTTS R p) = Ok tt /\
  (ttsInput p <> ""%string -> ttsLoading (snd (handleTTS R p)) = false) /\
  ttsInput (snd (handleTTS R p)) = ttsInput p /\
  transcribeResult (snd (handleTTS R p)) = transcribeResult p /\
  transcribeLoading (snd (handleTTS R p)) = transcribeLoading p.
Proof.
  split; [| split; [| split; [| split]]].
  - unfold handleTTS, bindL at 1, readL. cbv beta iota.
    destruct (ttsInput p) as [| a rest]; [reflexivity |].
    cbn [truthyString]. apply busy_then_settled.
  - intros Hinput. unfold handleTTS, bindL at 1, readL. cbv beta iota.
    destruct (ttsInput p) as [| a rest]; [contradiction |].
    cbn [truthyString].
    match goal with
    | |- ttsLoading (snd (bindL (writeL ?f) (fun _ => tryFinallyL
           (tryCatchL ?body (fun e => liveL (alert (@?text e))))
           (writeL ?g)) p)) = false =>
        destruct (busy_then_settled body text f g p) as [_ [q ->]]
    end.
    reflexivity.
  - assert (H : keepsPanel ttsInput (handleTTS R))
      by (unfold handleTTS; keepsPanel_tac).
    apply H.
  - assert (H : keepsPanel transcribeResult (handleTTS R))
      by (unfold handleTTS; keepsPanel_tac).
    apply H.
  - assert (H : keepsPanel transcribeLoading (handleTTS R))
      by (unfold handleTTS; keepsPanel_tac).
    apply H.
Qed.

Lemma tts_settles_witness :
  ttsInput typed <> ""%string /\
  ttsLoading (snd (handleTTS offline typed)) = false.
Proof.
  assert (Htyped : ttsInput typed <> ""%string)
    by (intros H; discriminate H).
  split; [exact Htyped |].
  exact (proj1 (proj2 (tts_settles offline typed)) Htyped).
Defined.

(** [handleTTS] stays clear of the live session: its handles, its active
    set and cursor, [liveConnected] and the open sessions are untouched;
    the speech source is not in the active set, so neither a stop nor an
    interruption stops it; and the handler makes no release call: the audio
    context it creates is never closed. *)
Theorem tts_leaves_session_alone R p :
  let s := live p in
  let s' := live (snd (handleTTS R p)) in
  resources s' = resources s /\
  playback s' = playback s /\
  liveConnected s' = liveConnected s /\
  openSessions s' = openSessions s /\
  Forall (fun c => isRelease c = false) (callsOfL (handleTTS R) p).
Proof.
  cbn zeta.
  assert (Hres : keepsLive resources (handleTTS R))
    by (unfold handleTTS; keepsLive_tac).
  assert (Hplay : keepsLive playback (handleTTS R))
    by (unfold handleTTS; keepsLive_tac).
  assert (Hlive : keepsLive liveConnected (handleTTS R))
    by (unfold handleTTS; keepsLive_tac).
  assert (Hopen : keepsLive openSessions (handleTTS R))
    by (unfold handleTTS; keepsLive_tac).
  assert (Hcalls : callsAllL (fun c => isRelease c = false) (handleTTS R)).
  { unfold handleTTS. callsAllL_tac ltac:(reflexivity). }
  split; [apply Hres |]. split; [apply Hplay |]. split; [apply Hlive |].
  split; [apply Hopen |].
  destruct (Hcalls p) as (cs & Htrace & Hall).
  rewrite (callsOfL_app _ p cs Htrace). exact Hall.
Qed.

(** A request that fails is reported by one alert with its message; only
    the two calls to the client have been made, nothing is logged and the
    loading flag is down. *)
Theorem tts_failure_reported R p e :
  ttsInput p <> ""%string ->
  throws (browser R) GetGeminiClient = None ->
  throws (browser R) (GenerateContent TTS [TextPart (ttsInput p)]) = Some e ->
  let p' := snd (handleTTS R p) in
  alerts (live p') = alerts (live p) ++ [String.append "TTS Failed: " e] /\
  callsOfL (handleTTS R) p
  = [GetGeminiClient; GenerateContent TTS [TextPart (ttsInput p)]] /\
  logs (live p') = logs (live p) /\
  ttsLoading p' = false.
Proof.
  intros Hinput Hclient Hfetch. unfold callsOfL, handleTTS.
  destruct (ttsInput p) as [| a rest] eqn:Htext; [contradiction |].
  run_panel. rewrite Htext. cbn.
  rewrite Hclient. cbn. rewrite Hfetch. cbn.
  rewrite <- app_assoc, skipn_app_length. repeat split.
Qed.

Lemma tts_failure_reported_witness :
  ttsInput typed <> ""%string /\
  throws (browser offline) (GenerateContent TTS [TextPart (ttsInput typed)])
  = Some "Failed to fetch"%string /\
  alerts (live (snd (handleTTS offline typed)))
  = alerts (live typed) ++ [String.append "TTS Failed: " "Failed to fetch"].
Proof.
  assert (Htyped : ttsInput typed <> ""%string)
    by (intros H; discriminate H).
  split; [exact Htyped |]. split; [reflexivity |].
  exact (proj1 (tts_failure_reported offline typed "Failed to fetch"%string
                  Htyped eq_refl eq_refl)).
Defined.

(** A response without inline audio plays nothing and tells nothing: after
    the two calls to the client there is no further call, no log line and
    no alert. *)
Theorem tts_silent_without_audio R p :
  ttsInput p <> ""%string ->
  (forall c, throws (browser R) c = None) ->
  truthyString
    (speechAudio (generateContent R TTS [TextPart (ttsInput p)])) = None ->
  let p' := snd (handleTTS R p) in
  callsOfL (handleTTS R) p
  = [GetGeminiClient; GenerateContent TTS [TextPart (ttsInput p)]] /\
  logs (live p') = logs (live p) /\
  alerts (live p') = alerts (live p) /\
  ttsLoading p' = false.
Proof.
  intros Hinput Hquiet Hnone. unfold callsOfL, handleTTS.
  destruct (ttsInput p) as [| a rest] eqn:Htext; [contradiction |].
  run_panel. rewrite Htext. cbn.
  rewrite !Hquiet. cbn. rewrite Hnone. cbn.
  rewrite <- app_assoc, skipn_app_length. repeat split.
Qed.

Lemma tts_silent_without_audio_witness :
  ttsInput typed <> ""%string /\
  (forall c, throws (browser (answering None)) c = None) /\
  logs (live (snd (handleTTS (answering None) typed))) = logs (live typed).
Proof.
  assert (Htyped : ttsInput typed <> ""%string)
    by (intros H; discriminate H).
  split; [exact Htyped |]. split; [intros c; reflexivity |].
  exact (proj1 (proj2 (tts_silent_without_audio (answering None) typed
                         Htyped (fun _ => eq_refl) eq_refl))).
Defined.

(** The speech of a response that carries audio is played at once, on a
    new 24 kHz context: the calls are the two to the client, the new
    context, the buffer source, its connection to the destination and its
    start at time 0; the live session's active set and cursor are as
    before. *)
Theorem tts_plays_at_once R p b64 bytes :
  ttsInput p <> ""%string ->
  (forall c, throws (browser R) c = None) ->
  truthyString
    (speechAudio (generateContent R TTS [TextPart (ttsInput p)])) = Some b64 ->
  decode (browser R) b64 = Some bytes ->
  let p' := snd (handleTTS R p) in
  let n := nextHandle (live p) in
  callsOfL (handleTTS R) p
  = [GetGeminiClient; GenerateContent TTS [TextPart (ttsInput p)];
     NewAudioContext n 24000; CreateBufferSource n (S n);
     ConnectDestination (S n) n;
     SourceStart (S n) (decodeAudioData bytes 24000 1) 0] /\
  playback (live p') = playback (live p) /\
  logs (live p') = logs (live p) ++ ["Playing generated speech..."%string].
Proof.
  intros Hinput Hquiet Haudio Hdec. unfold callsOfL, handleTTS.
  destruct (ttsInput p) as [| a rest] eqn:Htext; [contradiction |].
  run_panel. rewrite Htext. cbn.
  rewrite !Hquiet. cbn. rewrite Haudio. cbn. rewrite !Hquiet. cbn.
  rewrite Hdec. cbn. rewrite !Hquiet. cbn.
  rewrite <- !app_assoc. cbn. rewrite skipn_app_length. repeat split.
Qed.

Lemma tts_plays_at_once_witness :
  ttsInput typed <> ""%string /\
  decode (browser (speaking "abcd")) "abcd" = asciiBytes "abcd" /\
  scheduled (callsOfL (handleTTS (speaking "abcd")) typed)
  = [(0, bufferOfText "abcd")].
Proof.
  assert (Htyped : ttsInput typed <> ""%string)
    by (intros H; discriminate H).
  split; [exact Htyped |]. split; [reflexivity |].
  rewrite (proj1 (tts_plays_at_once (speaking "abcd") typed "abcd"%string
                    (map (fun a => byte.of_Z (Z.of_nat (Ascii.nat_of_ascii a)))
                       (list_ascii_of_string "abcd"))
                    Htyped (fun _ => eq_refl) eq_refl eq_refl)).
  reflexivity.
Defined.

(** *** [handleTranscribe] *)

(** With no file chosen, Transcribe does nothing at all. *)
Theorem transcribe_no_file R p :
  transcribeFile p = None -> handleTranscribe R p = (Ok tt, p).
Proof.
  intros Hnone. unfold handleTranscribe, bindL, readL. cbn. rewrite Hnone.
  reflexivity.
Qed.

Lemma transcribe_no_file_witness :
  transcribeFile opened = None /\
  handleTranscribe offline opened = (Ok tt, opened).
Proof.
  split; [reflexivity |]. apply (transcribe_no_file offline opened eq_refl).
Defined.

(** [handleTranscribe] never lets an exception out, and once past its guard
    it always ends with the loading flag down; the chosen file and the
    loading flag of the speech tab are left alone. *)
Theorem transcribe_settles R p :
  fst (handleTranscribe R p) = Ok tt /\
  (transcribeFile p <> None ->
   transcribeLoading (snd (handleTranscribe R p)) = false) /\
  transcribeFile (snd (handleTranscribe R p)) = transcribeFile p /\
  ttsLoading (snd (handleTranscribe R p)) = ttsLoading p.
Proof.
  split; [| split; [| split]].
  - unfold handleTranscribe, bindL at 1, readL. cbv beta iota.
    destruct (transcribeFile p) as [f |]; [| reflexivity].
    apply busy_then_settled.
  - intros Hfile. unfold handleTranscribe, bindL at 1, readL. cbv beta iota.
    destruct (transcribeFile p) as [f |]; [| contradiction].
    match goal with
    | |- transcribeLoading (snd (bindL (writeL ?f) (fun _ => tryFinallyL
           (tryCatchL ?body (fun e => liveL (alert (@?text e))))
           (writeL ?g)) p)) = false =>
        destruct (busy_then_settled body text f g p) as [_ [q ->]]
    end.
    reflexivity.
  - assert (H : keepsPanel transcribeFile (handleTranscribe R))
      by (unfold handleTranscribe; keepsPanel_tac).
    apply H.
  - assert (H : keepsPanel ttsLoading (handleTranscribe R))
      by (unfold handleTranscribe; keepsPanel_tac).
    apply H.
Qed.

Lemma transcribe_settles_witness :
  transcribeFile chosen <> None /\
  transcribeLoading (snd (handleTranscribe unreadable chosen)) = false.
Proof.
  assert (Hchosen : transcribeFile chosen <> None)
    by (intros H; discriminate H).
  split; [exact Hchosen |].
  exact (proj1 (proj2 (transcribe_settles unreadable chosen)) Hchosen).
Defined.

(** A transcription that goes through: one request to the FLASH model with
    the file (its type and its base64 text) followed by the instruction;
    the result shown is the text of the response, or "No transcription
    available." when that text is missing or empty. *)
Theorem transcribe_result R p f base64 :
  transcribeFile p = Some f ->
  blobToBase64 R f = Ok base64 ->
  (forall c, throws (browser R) c = None) ->
  let contents := [InlinePart (type f) base64;
                   TextPart "Transcribe this audio file."] in
  let p' := snd (handleTranscribe R p) in
  transcribeResult p'
  = orElse (text (generateContent R FLASH contents))
      "No transcription available." /\
  callsOfL (handleTranscribe R) p
  = [GetGeminiClient; GenerateContent FLASH contents] /\
  alerts (live p') = alerts (live p) /\
  transcribeLoading p' = false.
Proof.
  intros Hfile Hblob Hquiet. unfold callsOfL, handleTranscribe.
  run_panel. rewrite Hfile. cbn. rewrite Hblob. cbn.
  rewrite !Hquiet. cbn. rewrite <- app_assoc, skipn_app_length.
  repeat split.
Qed.

Lemma transcribe_result_witness :
  transcribeFile chosen = Some wav /\
  blobToBase64 (answering (Some ""%string)) wav = Ok "AAAA"%string /\
  transcribeResult (snd (handleTranscribe (answering (Some ""%string)) chosen))
  = "No transcription available."%string.
Proof.
  split; [reflexivity |]. split; [reflexivity |].
  exact (proj1 (transcribe_result (answering (Some ""%string)) chosen wav
                  "AAAA"%string eq_refl eq_refl (fun _ => eq_refl))).
Defined.

(** A file that cannot be read: nothing is sent, the result on display
    stays, and one alert shows the reason. *)
Theorem transcribe_unreadable_file R p f e :
  transcribeFile p = Some f ->
  blobToBase64 R f = Throw e ->
  let p' := snd (handleTranscribe R p) in
  transcribeResult p' = transcribeResult p /\
  callsOfL (handleTranscribe R) p = [] /\
  alerts (live p')
  = alerts (live p) ++ [String.append "Transcription failed: " e] /\
  transcribeLoading p' = false.
Proof.
  intros Hfile Hblob. unfold callsOfL, handleTranscribe.
  run_panel. rewrite Hfile. cbn. rewrite Hblob. cbn.
  repeat split.
  rewrite <- (app_nil_r (trace (live p))) at 2. apply skipn_app_length.
Qed.

Lemma transcribe_unreadable_file_witness :
  transcribeFile chosen = Some wav /\
  blobToBase64 unreadable wav = Throw "NotReadableError"%string /\
  callsOfL (handleTranscribe unreadable) chosen = [].
Proof.
  split; [reflexivity |]. split; [reflexivity |].
  exact (proj1 (proj2 (transcribe_unreadable_file unreadable chosen wav
                         "NotReadableError"%string eq_refl eq_refl))).
Defined.

(** A request that fails: the result on display stays and one alert shows
    the message. *)
Theorem transcribe_failure_reported R p f base64 e :
  transcribeFile p = Some f ->
  blobToBase64 R f = Ok base64 ->
  throws (browser R) GetGeminiClient = None ->
  throws (browser R)
    (GenerateContent FLASH
       [InlinePart (type f) base64; TextPart "Transcribe this audio file."])
  = Some e ->
  let p' := snd (handleTranscribe R p) in
  transcribeResult p' = transcribeResult p /\
  alerts (live p')
  = alerts (live p) ++ [String.append "Transcription failed: " e] /\
  transcribeLoading p' = false.
Proof.
  intros Hfile Hblob Hclient Hfetch. unfold handleTranscribe.
  run_panel. rewrite Hfile. cbn. rewrite Hblob. cbn.
  rewrite Hclient. cbn. rewrite Hfetch. cbn. repeat split.
Qed.

Lemma transcribe_failure_reported_witness :
  transcribeFile chosen = Some wav /\
  blobToBase64 offline wav = Ok "AAAA"%string /\
  transcribeResult (snd (handleTranscribe offline chosen))
  = transcribeResult chosen.
Proof.
  split; [reflexivity |]. split; [reflexivity |].
  exact (proj1 (transcribe_failure_reported offline chosen wav "AAAA"%string
                  "Failed to fetch"%string eq_refl eq_refl eq_refl eq_refl)).
Defined.

(** [handleTranscribe] stays clear of the live session: handles, active
    set, cursor, [liveConnected] and the log are untouched, and it makes no
    playback call and no release call. *)
Theorem transcribe_leaves_session_alone R p :
  let s := live p in
  let s' := live (snd (handleTranscribe R p)) in
  resources s' = resources s /\
  playback s' = playback s /\
  liveConnected s' = liveConnected s /\
  logs s' = logs s /\
  Forall (fun c => playbackCall c = false /\ isRelease c = false)
    (callsOfL (handleTranscribe R) p).
Proof.
  cbn zeta.
  assert (Hres : keepsLive resources (handleTranscribe R))
    by (unfold handleTranscribe; keepsLive_tac).
  assert (Hplay : keepsLive playback (handleTranscribe R))
    by (unfold handleTranscribe; keepsLive_tac).
  assert (Hlive : keepsLive liveConnected (handleTranscribe R))
    by (unfold handleTranscribe; keepsLive_tac).
  assert (Hlogs : keepsLive logs (handleTranscribe R))
    by (unfold handleTranscribe; keepsLive_tac).
  assert (Hcalls : callsAllL
                     (fun c => playbackCall c = false /\ isRelease c = false)
                     (handleTranscribe R)).
  { unfold handleTranscribe. callsAllL_tac ltac:(split; reflexivity). }
  split; [apply Hres |]. split; [apply Hplay |]. split; [apply Hlive |].
  split; [apply Hlogs |].
  destruct (Hcalls p) as (cs & Htrace & Hall).
  rewrite (callsOfL_app _ p cs Htrace). exact Hall.
Qed.
